(** * FileHandler: a readiness-gated FIFO task queue over the browser file system

    Shallow embedding of [src/FileHandler.ts].

    JavaScript runs one handler at a time, to completion.  A state of the
    model is what exists between two handlers: the fields of the
    [FileHandler] object, the requests the browser still has to answer, the
    files on disk, and a log of what has been observed so far.  An [Event]
    is one handler run: the application calling a public method, or the
    browser answering one outstanding request.

    Closures of the source are defunctionalised: every arrow function of
    [FileHandler.ts] is a constructor of [Task] or [Closure] holding the
    variables it captures, and [run] / [apply] give its body.

    A thrown [TypeError] (calling [undefined], reading a property of
    [undefined]) is [None].

    What the model takes from outside the file:
    - [BehaviorSubject] is the rxjs class: [next] stores the value and
      calls the observers, whatever value was held before;
    - the browser answers every request once, with success or with
      failure, and calls the callback or event handlers registered for that
      answer, if any (a FileWriter that fails fires [error] and then
      [writeend], a FileReader fires [loadend] either way); which answer it
      gives, and when, is up to the run;
    - [fileWriter.truncate] takes effect when it is called;
    - a caller's function returns normally; while it runs it may call the
      public methods again.
    [storageType] and [storageSize] are handed to [requestFileSystem] and
    read nowhere else; they are left out. *)

From stdpp Require Import base option list strings gmap.

(** ** Callers and their callbacks *)

(** A call of a public method, and the functions a caller passes as
    [onSuccessCallback] / [onErrorCallback].  A caller's function is known
    by an identifier; while it runs it may call the public methods again
    ([calls], in order).  It is assumed to return normally. *)
Inductive Call : Type :=
  | call_readFile (name : string)
      (onSuccessCallback onErrorCallback : option Callback)
  | call_writeFile (name content : string)
      (onSuccessCallback onErrorCallback : option Callback)
  | call_appendToFile (name content : string)
      (onSuccessCallback onErrorCallback : option Callback)
with Callback : Type :=
  | UserFunction (ident : nat) (calls : list Call).

(** The argument a caller's function receives. *)
Inductive Argument : Type :=
  | arg_none                       (* onSuccessCallback() *)
  | arg_result (text : string)     (* onSuccessCallback(e.currentTarget['result']) *)
  | arg_error                      (* callback(e) *)
  | arg_null.                      (* onSuccessCallback(null): the result of a failed read *)

(** ** Tasks and closures *)

(** The arrow functions handed to [addTaskToQueue] (lines 46, 75, 114). *)
Inductive Task : Type :=
  | readFile_task (name : string)
      (onSuccessCallback onErrorCallback : option Callback)
  | writeFile_task (name content : string)
      (onSuccessCallback onErrorCallback : option Callback)
  | appendToFile_task (name content : string)
      (onSuccessCallback onErrorCallback : option Callback).

(** The arrow functions handed to the browser. *)
Inductive Closure : Type :=
  | readFile_entry (onSuccessCallback : option Callback)          (* line 47 *)
  | readFile_file (onSuccessCallback : option Callback)           (* line 48 *)
  | readFile_onloadend (onSuccessCallback : option Callback)      (* lines 51-54 *)
  | writeFile_entry (content : string)
      (onSuccessCallback onErrorCallback : option Callback)       (* line 76 *)
  | writeFile_writer (content : string)
      (onSuccessCallback onErrorCallback : option Callback)       (* line 77 *)
  | writeFile_onwriteend (blob : string)
      (onSuccessCallback : option Callback)                       (* lines 80-86 *)
  | appendToFile_entry (content : string)
      (onSuccessCallback onErrorCallback : option Callback)       (* line 115 *)
  | appendToFile_writer (content : string)
      (onSuccessCallback onErrorCallback : option Callback)       (* line 116 *)
  | appendToFile_onwriteend
      (onSuccessCallback : option Callback)                       (* lines 120-124 *)
  | onerror_closure (onErrorCallback : option Callback)           (* lines 88-91, 126-129 *)
  | error_callback (onErrorCallback : option Callback)            (* lines 58-60, 95-100, 133-138 *)
  | caller_function (f : Callback).                               (* lines 93, 131 *)

(** ** Browser objects *)

Record FileReader : Type := { onloadend : option Closure }.

(** [writer_length] is the source's [fileWriter.length]. *)
Record FileWriter : Type := {
  writer_name : string;
  position : nat;
  writer_length : nat;
  onwriteend : option Closure;
  onerror : option Closure
}.

Definition set_onwriteend (h : option Closure) (w : FileWriter) : FileWriter :=
  {| writer_name := writer_name w; position := position w;
     writer_length := writer_length w; onwriteend := h; onerror := onerror w |}.

Definition set_onerror (h : option Closure) (w : FileWriter) : FileWriter :=
  {| writer_name := writer_name w; position := position w;
     writer_length := writer_length w; onwriteend := onwriteend w; onerror := h |}.

(** [fileWriter.seek(offset)]: the position never passes the end. *)
Definition seek (offset : nat) (w : FileWriter) : FileWriter :=
  {| writer_name := writer_name w; position := Nat.min offset (writer_length w);
     writer_length := writer_length w; onwriteend := onwriteend w;
     onerror := onerror w |}.

(** What the browser passes to a closure. *)
Inductive Value : Type :=
  | FileEntry (name : string)
  | File (content : string)
  | Writer (fileWriter : FileWriter)
  | ProgressEvent (result : string)
  | ProgressEventNull      (* loadend of a failed read: the result is null *)
  | FileError.

(** A request the browser has accepted and not answered yet. *)
Inductive Pending : Type :=
  | getFile_call (name : string) (create : bool)
      (successCallback : Closure) (errorCallback : option Closure)
  | file_call (name : string)
      (successCallback : Closure) (errorCallback : option Closure)
  | createWriter_call (name : string)
      (successCallback : Closure) (errorCallback : option Closure)
  | readAsText_call (reader : FileReader) (file : string)
  | write_call (fileWriter : FileWriter) (blob : string).

(** The handle [requestFileSystem] produces. *)
Inductive DOMFileSystem : Type := domFileSystem.

(** ** File contents *)

Fixpoint zeros (n : nat) : string :=
  match n with
  | 0 => EmptyString
  | S n => String Ascii.zero (zeros n)
  end.

(** Writing [blob] at [position] replaces the bytes it covers and extends
    the file when it reaches past the end. *)
Definition write_at (position : nat) (blob content : string) : string :=
  String.substring 0 position content +:+ blob +:+
  String.substring (position + String.length blob)
    (String.length content - (position + String.length blob)) content.

(** [truncate(size)] cuts the file to [size] bytes, or pads it with zero
    bytes up to [size]. *)
Definition truncate (size : nat) (content : string) : string :=
  String.substring 0 size content +:+ zeros (size - String.length content).

(** ** Observations *)

Inductive Obs : Type :=
  | ObsPush (t : Task)               (* tasksQueue.push(callback) *)
  | ObsRun (t : Task)                (* callback() in deQueueTask: the body begins *)
  | ObsNext (before value : bool)    (* tasksProcessSubject.next(value), value held before *)
  | ObsNotify (value : bool)         (* the subscriber of lines 30-34 is called *)
  | ObsCall (ident : nat) (arg : Argument).  (* a caller's function is called *)

(** ** State *)

Record State : Type := {
  (* the FileHandler object *)
  fs : option DOMFileSystem;
  tasksProcessSubject : bool;        (* the value the BehaviorSubject holds *)
  tasksQueue : list Task;
  (* the browser *)
  requesting : bool;                 (* requestFileSystem not answered yet *)
  disk : gmap string string;
  pending : list Pending;
  (* ghost *)
  log : list Obs
}.

Definition set_fs (v : option DOMFileSystem) (s : State) : State :=
  {| fs := v; tasksProcessSubject := tasksProcessSubject s;
     tasksQueue := tasksQueue s; requesting := requesting s; disk := disk s;
     pending := pending s; log := log s |}.

Definition set_subject (v : bool) (s : State) : State :=
  {| fs := fs s; tasksProcessSubject := v;
     tasksQueue := tasksQueue s; requesting := requesting s; disk := disk s;
     pending := pending s; log := log s |}.

Definition set_tasksQueue (v : list Task) (s : State) : State :=
  {| fs := fs s; tasksProcessSubject := tasksProcessSubject s;
     tasksQueue := v; requesting := requesting s; disk := disk s;
     pending := pending s; log := log s |}.

Definition set_requesting (v : bool) (s : State) : State :=
  {| fs := fs s; tasksProcessSubject := tasksProcessSubject s;
     tasksQueue := tasksQueue s; requesting := v; disk := disk s;
     pending := pending s; log := log s |}.

Definition set_disk (v : gmap string string) (s : State) : State :=
  {| fs := fs s; tasksProcessSubject := tasksProcessSubject s;
     tasksQueue := tasksQueue s; requesting := requesting s; disk := v;
     pending := pending s; log := log s |}.

Definition set_pending (v : list Pending) (s : State) : State :=
  {| fs := fs s; tasksProcessSubject := tasksProcessSubject s;
     tasksQueue := tasksQueue s; requesting := requesting s; disk := disk s;
     pending := v; log := log s |}.

Definition record (o : Obs) (s : State) : State :=
  {| fs := fs s; tasksProcessSubject := tasksProcessSubject s;
     tasksQueue := tasksQueue s; requesting := requesting s; disk := disk s;
     pending := pending s; log := log s ++ [o] |}.

(** Hand a request to the browser. *)
Definition issue (p : Pending) (s : State) : State :=
  set_pending (pending s ++ [p]) s.

(** ** The BehaviorSubject and the drain protocol *)

(** [BehaviorSubject] is the class of the rxjs library (line 1).  Its
    [next(value)] stores the value and then calls every observer with it;
    it does not compare the value with the one it held.  [getValue()]
    returns the stored value.  [subscribe(observer)] registers the observer
    and calls it at once with the stored value.  The subject of line 26 has
    one observer, the arrow function of lines 30-34. *)
Definition getValue (s : State) : bool := tasksProcessSubject s.

Definition next_with (observer : bool → State → option State)
    (value : bool) (s : State) : option State :=
  observer value (set_subject value (record (ObsNext (getValue s) value) s)).

(** The request each task body makes first (lines 47, 76, 115):
    [this.fs.root.getFile(name, options, successCallback, errorCallback)]. *)
Definition first_request (callback : Task) : Pending :=
  match callback with
  | readFile_task name onSuccessCallback onErrorCallback =>
      getFile_call name false
        (readFile_entry onSuccessCallback)
        (Some (error_callback onErrorCallback))
  | writeFile_task name content onSuccessCallback onErrorCallback =>
      getFile_call name true
        (writeFile_entry content onSuccessCallback onErrorCallback)
        (Some (error_callback onErrorCallback))
  | appendToFile_task name content onSuccessCallback onErrorCallback =>
      getFile_call name true
        (appendToFile_entry content onSuccessCallback onErrorCallback)
        (Some (error_callback onErrorCallback))
  end.

(** Body of a queued task (lines 46-61, 75-101, 114-139): it reads
    [this.fs.root], which throws while [this.fs] is undefined, and makes
    its first request. *)
Definition run (callback : Task) (s : State) : option State :=
  let s := record (ObsRun callback) s in
  match fs s with
  | None => None
  | Some _ => Some (issue (first_request callback) s)
  end.

(** Lines 30-34, with the method it calls as a parameter. *)
Definition subscriber_with (deQueueTask : State → option State)
    (canPerformNewTask : bool) (s : State) : option State :=
  let s := record (ObsNotify canPerformNewTask) s in
  if canPerformNewTask && (0 <? length (tasksQueue s)) then deQueueTask s
  else Some s.

(** Lines 156-160, with [tasksProcessSubject.next] as a parameter.  On an
    empty queue [shift()] gives [undefined] and [callback()] throws. *)
Definition deQueueTask_with (next : bool → State → option State)
    (s : State) : option State :=
  match tasksQueue s with
  | [] => None
  | callback :: rest =>
      s ← next false (set_tasksQueue rest s);
      run callback s
  end.

(** The subscriber calls [deQueueTask], which calls [next(false)], which
    calls the subscriber again; that inner call stops at the guard of line
    31.  The cycle is cut there: the [deQueueTask] of the inner subscriber
    is never reached.  [deQueueTask_eq] and [next_eq] below show that the
    functions so defined satisfy the equations of the source. *)
Definition deQueueTask : State → option State :=
  deQueueTask_with (next_with (subscriber_with (λ _, None))).

Definition subscriber : bool → State → option State :=
  subscriber_with deQueueTask.

Definition next : bool → State → option State := next_with subscriber.

(** Lines 146-151. *)
Definition addTaskToQueue (callback : Task) (s : State) : option State :=
  let s := record (ObsPush callback)
             (set_tasksQueue (tasksQueue s ++ [callback]) s) in
  if (length (tasksQueue s) =? 1) && getValue s then deQueueTask s
  else Some s.

(** ** Public methods *)

Definition readFile (name : string)
    (onSuccessCallback onErrorCallback : option Callback) :
    State → option State :=
  addTaskToQueue (readFile_task name onSuccessCallback onErrorCallback).

Definition writeFile (name content : string)
    (onSuccessCallback onErrorCallback : option Callback) :
    State → option State :=
  addTaskToQueue (writeFile_task name content onSuccessCallback onErrorCallback).

Definition appendToFile (name content : string)
    (onSuccessCallback onErrorCallback : option Callback) :
    State → option State :=
  addTaskToQueue
    (appendToFile_task name content onSuccessCallback onErrorCallback).

Definition perform (c : Call) : State → option State :=
  match c with
  | call_readFile name f g => readFile name f g
  | call_writeFile name content f g => writeFile name content f g
  | call_appendToFile name content f g => appendToFile name content f g
  end.

Fixpoint perform_all (cs : list Call) (s : State) : option State :=
  match cs with
  | [] => Some s
  | c :: cs => s ← perform c s; perform_all cs s
  end.

(** [callback && callback(arg)]. *)
Definition invoke (callback : option Callback) (arg : Argument)
    (s : State) : option State :=
  match callback with
  | None => Some s
  | Some (UserFunction ident calls) =>
      perform_all calls (record (ObsCall ident arg) s)
  end.

(** ** Completion paths *)

(** Lines 168-171. *)
Definition processError (callback : option Callback) (s : State) :
    option State :=
  s ← invoke callback arg_error s;
  next true s.

(** Lines 177-180. *)
Definition initFs (fs : DOMFileSystem) (s : State) : option State :=
  next true (set_fs (Some fs) s).

(** Lines 78-94 and 117-132 after [seek]: install the handlers, then
    [fileWriter.write(blob)].  [onerror] is assigned twice. *)
Definition install_and_write (onwriteend_handler : Closure)
    (onErrorCallback : option Callback) (blob : string)
    (fileWriter : FileWriter) (s : State) : State :=
  let fileWriter := set_onwriteend (Some onwriteend_handler) fileWriter in
  let fileWriter :=
    set_onerror (Some (onerror_closure onErrorCallback)) fileWriter in
  let fileWriter :=
    set_onerror (caller_function <$> onErrorCallback) fileWriter in
  issue (write_call fileWriter blob) s.

(** The body of each closure.  A closure called with a value of another
    kind than the browser passes it would throw. *)
Definition apply (c : Closure) (v : Value) (s : State) : option State :=
  match c, v with
  | readFile_entry onSuccessCallback, FileEntry name =>
      Some (issue (file_call name (readFile_file onSuccessCallback) None) s)
  | readFile_file onSuccessCallback, File file =>
      let reader := {| onloadend := Some (readFile_onloadend onSuccessCallback) |} in
      Some (issue (readAsText_call reader file) s)
  | readFile_onloadend onSuccessCallback, ProgressEvent result =>
      s ← next true s;
      invoke onSuccessCallback (arg_result result) s
  | readFile_onloadend onSuccessCallback, ProgressEventNull =>
      s ← next true s;
      invoke onSuccessCallback arg_null s
  | writeFile_entry content onSuccessCallback onErrorCallback, FileEntry name =>
      Some (issue (createWriter_call name
                     (writeFile_writer content onSuccessCallback onErrorCallback)
                     (Some (error_callback onErrorCallback))) s)
  | writeFile_writer content onSuccessCallback onErrorCallback, Writer fileWriter =>
      let blob := content in
      Some (install_and_write (writeFile_onwriteend blob onSuccessCallback)
              onErrorCallback blob fileWriter s)
  | writeFile_onwriteend blob onSuccessCallback, Writer fileWriter =>
      (* fileWriter.truncate(blob.size); fileWriter.onwriteend = null: the
         writeend of the truncation finds no handler *)
      let s := set_disk (alter (truncate (String.length blob))
                           (writer_name fileWriter) (disk s)) s in
      s ← invoke onSuccessCallback arg_none s;
      next true s
  | appendToFile_entry content onSuccessCallback onErrorCallback, FileEntry name =>
      Some (issue (createWriter_call name
                     (appendToFile_writer content onSuccessCallback onErrorCallback)
                     (Some (error_callback onErrorCallback))) s)
  | appendToFile_writer content onSuccessCallback onErrorCallback, Writer fileWriter =>
      let blob := content in
      let fileWriter := seek (writer_length fileWriter) fileWriter in
      Some (install_and_write (appendToFile_onwriteend onSuccessCallback)
              onErrorCallback blob fileWriter s)
  | appendToFile_onwriteend onSuccessCallback, Writer _ =>
      s ← invoke onSuccessCallback arg_none s;
      next true s
  | onerror_closure onErrorCallback, FileError =>
      s ← invoke onErrorCallback arg_error s;
      next true s
  | error_callback onErrorCallback, FileError =>
      processError onErrorCallback s
  | caller_function f, FileError =>
      invoke (Some f) arg_error s
  | _, _ => None
  end.

(** ** Construction *)

(** Lines 22-35: the subject starts at [false], the file system is
    requested, and [subscribe] calls the observer with the current value. *)
Definition constructor (files : gmap string string) : option State :=
  let s := {| fs := None; tasksProcessSubject := false; tasksQueue := [];
              requesting := true; disk := files; pending := []; log := [] |} in
  subscriber (getValue s) s.

(** ** The browser *)

Inductive Outcome : Type :=
  | Done (s : State)
  | TypeError
  | NotEnabled.       (* the browser cannot produce this event here *)

Definition lift (r : option State) : Outcome :=
  match r with
  | Some s => Done s
  | None => TypeError
  end.

(** Call the handler registered for an event, if there is one. *)
Definition deliver (handler : option Closure) (v : Value) (s : State) :
    Outcome :=
  match handler with
  | None => Done s
  | Some c => lift (apply c v s)
  end.

(** One event after another on the same object. *)
Definition then_deliver (o : Outcome) (handler : option Closure) (v : Value) :
    Outcome :=
  match o with
  | Done s => deliver handler v s
  | o => o
  end.

(** The browser answers the [i]-th outstanding request, with success
    ([ok]) or failure, exactly once.
    - [getFile] without [create] succeeds only on an existing file; with
      [create] it creates a missing file, empty.
    - a new [FileWriter] stands at position 0 and knows the file's length.
    - [write] puts the blob at the writer's position, then fires
      [writeend]; a failed write leaves the file alone and fires [error],
      then [writeend].
    - [readAsText] fires [loadend] with the text of the file; a failed
      read fires [loadend] too, with a null result. *)
Definition complete (i : nat) (ok : bool) (s : State) : Outcome :=
  match pending s !! i with
  | None => NotEnabled
  | Some p =>
      let s := set_pending (delete i (pending s)) s in
      match p with
      | getFile_call name create successCallback errorCallback =>
          if ok then
            match disk s !! name with
            | Some _ => deliver (Some successCallback) (FileEntry name) s
            | None =>
                if create then
                  deliver (Some successCallback) (FileEntry name)
                    (set_disk (<[name := EmptyString]> (disk s)) s)
                else NotEnabled
            end
          else deliver errorCallback FileError s
      | file_call name successCallback errorCallback =>
          if ok then
            match disk s !! name with
            | Some content => deliver (Some successCallback) (File content) s
            | None => NotEnabled
            end
          else deliver errorCallback FileError s
      | createWriter_call name successCallback errorCallback =>
          if ok then
            match disk s !! name with
            | Some content =>
                deliver (Some successCallback)
                  (Writer {| writer_name := name; position := 0;
                             writer_length := String.length content;
                             onwriteend := None; onerror := None |}) s
            | None => NotEnabled
            end
          else deliver errorCallback FileError s
      | readAsText_call reader file =>
          if ok then deliver (onloadend reader) (ProgressEvent file) s
          else deliver (onloadend reader) ProgressEventNull s
      | write_call fileWriter blob =>
          if ok then
            match disk s !! writer_name fileWriter with
            | Some content =>
                deliver (onwriteend fileWriter) (Writer fileWriter)
                  (set_disk (<[writer_name fileWriter :=
                                 write_at (position fileWriter) blob content]>
                               (disk s)) s)
            | None => NotEnabled
            end
          else
            then_deliver (deliver (onerror fileWriter) FileError s)
              (onwriteend fileWriter) (Writer fileWriter)
      end
  end.

Inductive Event : Type :=
  | caller (c : Call)                    (* the application calls a method *)
  | requestFileSystem_result (ok : bool) (* line 28 is answered *)
  | backend (i : nat) (ok : bool).       (* a request is answered *)

(** [requestFileSystem] was given [this.initFs] and no error callback. *)
Definition step (s : State) (e : Event) : Outcome :=
  match e with
  | caller c => lift (perform c s)
  | requestFileSystem_result ok =>
      if requesting s then
        let s := set_requesting false s in
        if ok then lift (initFs domFileSystem s) else Done s
      else NotEnabled
  | backend i ok => complete i ok s
  end.

Fixpoint exec (s : State) (es : list Event) : Outcome :=
  match es with
  | [] => Done s
  | e :: es =>
      match step s e with
      | Done s => exec s es
      | o => o
      end
  end.

Inductive reachable : State → Prop :=
  | reachable_new files s :
      constructor files = Some s → reachable s
  | reachable_step s e s' :
      reachable s → step s e = Done s' → reachable s'.

(** ** Reading the log *)

(** Tasks appended to the queue, in order. *)
Definition pushed (l : list Obs) : list Task :=
  omap (λ o, match o with ObsPush t => Some t | _ => None end) l.

(** Tasks whose body began, in order. *)
Definition started (l : list Obs) : list Task :=
  omap (λ o, match o with ObsRun t => Some t | _ => None end) l.

(** Calls of the callers' functions, in order. *)
Definition called (l : list Obs) : list (nat * Argument) :=
  omap (λ o, match o with ObsCall n a => Some (n, a) | _ => None end) l.

(** Values written to the subject, each with the value it replaced. *)
Definition writes (l : list Obs) : list (bool * bool) :=
  omap (λ o, match o with ObsNext b v => Some (b, v) | _ => None end) l.

(** Times the subscriber was called. *)
Definition notifications (l : list Obs) : nat :=
  length (omap (λ o, match o with ObsNotify v => Some v | _ => None end) l).

Definition task_of (c : Call) : Task :=
  match c with
  | call_readFile name f g => readFile_task name f g
  | call_writeFile name content f g => writeFile_task name content f g
  | call_appendToFile name content f g => appendToFile_task name content f g
  end.

(** ** The single-flight protocol as an automaton over the log *)

Inductive Phase : Type :=
  | Booting    (* the subject still holds its initial false *)
  | Ready      (* the subject holds true *)
  | Claimed    (* deQueueTask wrote false; the body has not begun *)
  | Running.   (* a body began; no completion has written true since *)

(** The only moves: initialisation or a completion writes true over
    false; a drain writes false over true and then begins one body. *)
Definition monitor_step (o : Obs) (m : Phase) : option Phase :=
  match o, m with
  | ObsNext false true, Booting => Some Ready
  | ObsNext false true, Running => Some Ready
  | ObsNext true false, Ready => Some Claimed
  | ObsNext _ _, _ => None
  | ObsRun _, Claimed => Some Running
  | ObsRun _, _ => None
  | _, m => Some m
  end.

Definition monitor_from (m : option Phase) (l : list Obs) : option Phase :=
  foldl (λ m o, m ≫= monitor_step o) m l.

Definition monitor (l : list Obs) : option Phase :=
  monitor_from (Some Booting) l.

(** The value the subject holds after a log, read off its writes. *)
Definition signal_from (v : bool) (l : list Obs) : bool :=
  foldl (λ v o, match o with ObsNext _ w => w | _ => v end) v l.

Definition signal_after (l : list Obs) : bool := signal_from false l.

Definition phase_value (m : Phase) : bool :=
  match m with
  | Ready => true
  | _ => false
  end.

(** ** Invariant *)

(** The requests the program makes. *)
Inductive wf_pending : Pending → Prop :=
  | wf_getFile t : wf_pending (first_request t)
  | wf_file name f :
      wf_pending (file_call name (readFile_file f) None)
  | wf_readAsText f file :
      wf_pending
        (readAsText_call {| onloadend := Some (readFile_onloadend f) |} file)
  | wf_createWriter_write name content f g :
      wf_pending
        (createWriter_call name (writeFile_writer content f g)
           (Some (error_callback g)))
  | wf_createWriter_append name content f g :
      wf_pending
        (createWriter_call name (appendToFile_writer content f g)
           (Some (error_callback g)))
  | wf_write_write w blob content f g :
      wf_pending
        (write_call
           {| writer_name := writer_name w; position := position w;
              writer_length := writer_length w;
              onwriteend := Some (writeFile_onwriteend content f);
              onerror := caller_function <$> g |} blob)
  | wf_write_append w blob f g :
      wf_pending
        (write_call
           {| writer_name := writer_name w; position := position w;
              writer_length := writer_length w;
              onwriteend := Some (appendToFile_onwriteend f);
              onerror := caller_function <$> g |} blob).

(** What each phase says about the state between two handlers. *)
Definition shape (m : Phase) (s : State) : Prop :=
  match m with
  | Booting => tasksProcessSubject s = false ∧ pending s = []
  | Ready =>
      tasksProcessSubject s = true ∧ pending s = [] ∧ tasksQueue s = [] ∧
      is_Some (fs s)
  | Claimed => False
  | Running =>
      tasksProcessSubject s = false ∧ length (pending s) ≤ 1 ∧ is_Some (fs s)
  end.

Record Good (s : State) : Prop := {
  good_phase : ∃ m, monitor (log s) = Some m ∧ shape m s ∧
                    (requesting s = true → m = Booting);
  good_fifo : pushed (log s) = started (log s) ++ tasksQueue s;
  good_pending : Forall wf_pending (pending s)
}.

(** A handler that has taken its request off the list and has not yet
    written true: nothing outstanding, subject false. *)
Record Quiet (s : State) : Prop := {
  quiet_good : Good s;
  quiet_subject : tasksProcessSubject s = false;
  quiet_pending : pending s = []
}.

(** A handler that has taken the request of the running task off the
    list. *)
Record Taken (s : State) : Prop := {
  taken_quiet : Quiet s;
  taken_phase : monitor (log s) = Some Running
}.

(** ** Closed forms *)

(** The state right after [new FileHandler(...)]. *)
Definition initial (files : gmap string string) : State :=
  {| fs := None; tasksProcessSubject := false; tasksQueue := [];
     requesting := true; disk := files; pending := [];
     log := [ObsNotify false] |}.

(** A body begins. *)
Definition begin (t : Task) (s : State) : State :=
  issue (first_request t) (record (ObsRun t) s).

(** [next(value)] when the subscriber does not drain. *)
Definition write_subject (value : bool) (s : State) : State :=
  record (ObsNotify value)
    (set_subject value (record (ObsNext (tasksProcessSubject s) value) s)).

(** [tasksQueue.push(callback)]. *)
Definition push (t : Task) (s : State) : State :=
  record (ObsPush t) (set_tasksQueue (tasksQueue s ++ [t]) s).

Definition push_all (cs : list Call) (s : State) : State :=
  foldl (λ s c, push (task_of c) s) s cs.

(** What [callback && callback(arg)] leaves behind while the subject is
    false. *)
Definition invoked (callback : option Callback) (arg : Argument)
    (s : State) : State :=
  match callback with
  | None => s
  | Some (UserFunction ident calls) =>
      push_all calls (record (ObsCall ident arg) s)
  end.

(** The tasks a caller's function submits. *)
Definition submits (callback : option Callback) : list Task :=
  match callback with
  | None => []
  | Some (UserFunction _ calls) => task_of <$> calls
  end.

(** What a drain adds to the log. *)
Definition drain_log (q : list Task) : list Obs :=
  match q with
  | [] => []
  | t :: _ => [ObsNext true false; ObsNotify false; ObsRun t]
  end.

(** ** Scenarios *)

(** An answer of the browser to an outstanding request. *)
Definition is_answer (e : Event) : Prop :=
  match e with
  | backend _ _ => True
  | _ => False
  end.

(** The state a run from a fresh [FileHandler] over an empty disk ends
    in; the fresh state itself when the run is not possible. *)
Definition state_after (es : list Event) : State :=
  match exec (initial ∅) es with
  | Done s => s
  | _ => initial ∅
  end.

(** The property of the subject that the FileHandler does not have:
    subscribers hear of a write exactly when it changes the value. *)
Definition notifies_on_change_only : Prop :=
  ∀ (s s' : State) (w : bool),
    next w s = Some s' →
    (notifications (log s) < notifications (log s') ↔ w ≠ getValue s).

(** Scenario A of the specification, before the browser has answered
    the first request: the write is running, the read waits. *)
Definition scenario_A : list Event :=
  [requestFileSystem_result true;
   caller (call_writeFile "a.txt" "hello" None None);
   caller (call_readFile "a.txt" (Some (UserFunction 1 [])) None)].

(** A FileHandler whose file system was granted and that has no work. *)
Definition idle : State := state_after [requestFileSystem_result true].

(** Submissions while the file system request is refused. *)
Definition scenario_refused : list Event :=
  [caller (call_readFile "b.txt" (Some (UserFunction 1 [])) (Some (UserFunction 2 [])));
   requestFileSystem_result false;
   caller (call_writeFile "b.txt" "x" None (Some (UserFunction 3 [])))].

(** Scenario C: the first write fails in its FileWriter; a second write
    waits behind it. *)
Definition scenario_C : list Event :=
  [requestFileSystem_result true;
   caller (call_writeFile "c.txt" "X"
             (Some (UserFunction 1 [])) (Some (UserFunction 2 [])));
   caller (call_writeFile "c.txt" "Y"
             (Some (UserFunction 3 [])) (Some (UserFunction 4 [])));
   backend 0 true; backend 0 true; backend 0 false].

(** Scenario D: overwrite, append, read, each request answered with
    success. *)
Definition scenario_D : list Event :=
  [requestFileSystem_result true;
   caller (call_writeFile "d.txt" "A" None None);
   caller (call_appendToFile "d.txt" "B" None None);
   caller (call_readFile "d.txt" (Some (UserFunction 1 [])) None);
   backend 0 true; backend 0 true; backend 0 true;
   backend 0 true; backend 0 true; backend 0 true;
   backend 0 true; backend 0 true; backend 0 true].

(** The same three calls made before the file system is granted. *)
Definition scenario_D_early : list Event :=
  [caller (call_writeFile "d.txt" "A" None None);
   caller (call_appendToFile "d.txt" "B" None None);
   caller (call_readFile "d.txt" (Some (UserFunction 1 [])) None);
   requestFileSystem_result true;
   backend 0 true; backend 0 true; backend 0 true;
   backend 0 true; backend 0 true; backend 0 true;
   backend 0 true; backend 0 true; backend 0 true].

(** A read whose text is about to be delivered, with a write waiting. *)
Definition scenario_read_loading : list Event :=
  [requestFileSystem_result true;
   caller (call_writeFile "a.txt" "hello" None None);
   backend 0 true; backend 0 true; backend 0 true;
   caller (call_readFile "a.txt" (Some (UserFunction 1 [])) None);
   caller (call_writeFile "a.txt" "bye" (Some (UserFunction 2 [])) None);
   backend 0 true; backend 0 true].

(** A write whose blob is about to be acknowledged, with a read
    waiting. *)
Definition scenario_write_ending : list Event :=
  [requestFileSystem_result true;
   caller (call_writeFile "a.txt" "hello" (Some (UserFunction 2 [])) None);
   caller (call_readFile "a.txt" (Some (UserFunction 1 [])) None);
   backend 0 true; backend 0 true].

(** After a completion: the first of the tasks that were waiting has
    begun and the others wait, or nothing is left to do. *)
Definition settled (q st : list Task) (s : State) : Prop :=
  match q with
  | [] => pending s = [] ∧ tasksQueue s = [] ∧ started (log s) = st
  | t :: q' =>
      pending s = [first_request t] ∧ tasksQueue s = q' ∧
      started (log s) = st ++ [t]
  end.

(** ** Reading a task *)

Definition onSuccess_of (t : Task) : option Callback :=
  match t with
  | readFile_task _ f _ => f
  | writeFile_task _ _ f _ => f
  | appendToFile_task _ _ f _ => f
  end.

Definition onError_of (t : Task) : option Callback :=
  match t with
  | readFile_task _ _ g => g
  | writeFile_task _ _ _ g => g
  | appendToFile_task _ _ _ g => g
  end.

(** What [callback && callback(arg)] adds to [called]. *)
Definition entries (callback : option Callback) (arg : Argument) :
    list (nat * Argument) :=
  match callback with
  | None => []
  | Some (UserFunction ident _) => [(ident, arg)]
  end.

(** The three successful answers a task needs: [getFile], then
    [file] or [createWriter], then [readAsText] or [write]. *)
Definition three_answers : list Event :=
  [backend 0 true; backend 0 true; backend 0 true].

(** ** More scenarios *)

(** The write of scenario A has its file entry and waits for its
    writer. *)
Definition scenario_writer_wanted : list Event :=
  scenario_A ++ [backend 0 true].

(** An append is the first thing asked of a fresh FileHandler. *)
Definition scenario_append_start : list Event :=
  [requestFileSystem_result true;
   caller (call_appendToFile "a.txt" "x"
             (Some (UserFunction 5 [])) (Some (UserFunction 6 [])))].

(** A file was written, and a read of it has just begun. *)
Definition scenario_read_start : list Event :=
  [requestFileSystem_result true;
   caller (call_writeFile "a.txt" "hello" None None);
   backend 0 true; backend 0 true; backend 0 true;
   caller (call_readFile "a.txt"
             (Some (UserFunction 1 [])) (Some (UserFunction 2 [])));
   caller (call_writeFile "a.txt" "bye" None None)].

(** The read of [scenario_read_start] has its file entry and waits for
    the file. *)
Definition scenario_file_wanted : list Event :=
  scenario_read_start ++ [backend 0 true].


(** Three calls made before the file system is granted; then the write
    runs to its end, the read gets its file entry, and [fileEntry.file]
    fails. *)
Definition scenario_stranded : list Event :=
  [caller (call_writeFile "a.txt" "x" None None);
   caller (call_readFile "a.txt"
             (Some (UserFunction 1 [])) (Some (UserFunction 2 [])));
   caller (call_writeFile "b.txt" "y"
             (Some (UserFunction 3 [])) (Some (UserFunction 4 [])));
   requestFileSystem_result true;
   backend 0 true; backend 0 true; backend 0 true;
   backend 0 true; backend 0 false].

(** A handler run either leaves the subject alone and begins nothing, or
    it hands the queue on: the first of the tasks waiting (those in the
    queue, then those submitted during the run) begins. *)
Definition effect (s s' : State) : Prop :=
  (writes (log s') = writes (log s) ∧ started (log s') = started (log s)) ∨
  ∃ ex, settled (tasksQueue s ++ ex) (started (log s)) s'.

(** * Proofs *)

Ltac fields :=
  cbv zeta in *; unfold getValue in *;
  cbn [fs tasksProcessSubject tasksQueue requesting disk pending log
       set_fs set_subject set_tasksQueue set_requesting set_disk set_pending
       record issue getValue begin write_subject push] in *.

(** ** The definitions satisfy the equations of the source *)

Lemma subscriber_false d s :
  subscriber_with d false s = Some (record (ObsNotify false) s).
Proof. reflexivity. Qed.

Lemma deQueueTask_eq s : deQueueTask s = deQueueTask_with next s.
Proof.
  unfold deQueueTask, deQueueTask_with.
  destruct (tasksQueue s); [reflexivity|].
  unfold next, next_with. by rewrite !subscriber_false.
Qed.

Lemma next_eq value s :
  next value s =
  subscriber_with deQueueTask value
    (set_subject value (record (ObsNext (getValue s) value) s)).
Proof. reflexivity. Qed.

(** ** Log projections *)

Lemma monitor_snoc l o : monitor (l ++ [o]) = monitor l ≫= monitor_step o.
Proof. unfold monitor, monitor_from. by rewrite foldl_app. Qed.

Lemma pushed_snoc l o :
  pushed (l ++ [o]) =
  pushed l ++ match o with ObsPush t => [t] | _ => [] end.
Proof. unfold pushed. rewrite omap_app. by destruct o. Qed.

Lemma started_snoc l o :
  started (l ++ [o]) =
  started l ++ match o with ObsRun t => [t] | _ => [] end.
Proof. unfold started. rewrite omap_app. by destruct o. Qed.

Ltac logs :=
  rewrite ?monitor_snoc, ?pushed_snoc, ?started_snoc in *.

(** ** What the drain protocol does, in closed form *)

Lemma next_false s : next false s = Some (write_subject false s).
Proof. reflexivity. Qed.

Lemma deQueueTask_cons s t q h :
  tasksQueue s = t :: q → fs s = Some h →
  deQueueTask s = Some (begin t (write_subject false (set_tasksQueue q s))).
Proof.
  intros Hq Hfs. rewrite deQueueTask_eq. unfold deQueueTask_with.
  rewrite Hq, next_false. cbn [mbind option_bind]. unfold run. fields.
  by rewrite Hfs.
Qed.

Lemma deQueueTask_nil s : tasksQueue s = [] → deQueueTask s = None.
Proof. intros Hq. rewrite deQueueTask_eq. unfold deQueueTask_with. by rewrite Hq. Qed.

Lemma next_true_nil s :
  tasksQueue s = [] → next true s = Some (write_subject true s).
Proof.
  intros Hq. rewrite next_eq. unfold subscriber_with. fields. by rewrite Hq.
Qed.

Lemma next_true_cons s t q h :
  tasksQueue s = t :: q → fs s = Some h →
  next true s =
  Some (begin t (write_subject false (set_tasksQueue q (write_subject true s)))).
Proof.
  intros Hq Hfs. rewrite next_eq. unfold subscriber_with. fields.
  rewrite Hq. cbn [length Nat.ltb Nat.leb andb].
  by erewrite deQueueTask_cons.
Qed.

Lemma addTaskToQueue_busy t s :
  tasksProcessSubject s = false → addTaskToQueue t s = Some (push t s).
Proof.
  intros Hv. unfold addTaskToQueue. fields. rewrite Hv.
  by rewrite andb_false_r.
Qed.

Lemma addTaskToQueue_fast t s h :
  tasksProcessSubject s = true → tasksQueue s = [] → fs s = Some h →
  addTaskToQueue t s =
  Some (begin t (write_subject false (set_tasksQueue [] (push t s)))).
Proof.
  intros Hv Hq Hfs. unfold addTaskToQueue. fields. rewrite Hv, Hq.
  cbn [app length Nat.eqb andb].
  by erewrite deQueueTask_cons; [|fields; reflexivity|].
Qed.

Lemma addTaskToQueue_behind t s :
  tasksQueue s ≠ [] → addTaskToQueue t s = Some (push t s).
Proof.
  intros Hq. unfold addTaskToQueue, push. fields.
  destruct (tasksQueue s) as [|t' q]; [done|].
  rewrite length_app. cbn [length]. 
  replace (S (length q) + 1 =? 1) with false; [done|].
  symmetry. apply Nat.eqb_neq. lia.
Qed.

(** ** The invariant is kept *)

Lemma Good_push t s :
  Good s → tasksProcessSubject s = false → Good (push t s).
Proof.
  intros [(m & Hm & Hs & Hr) Hf Hp] Hv. split; fields; logs.
  - exists m. rewrite Hm. split_and!; [done| |done].
    destruct m; cbn [shape] in *; fields; [done| |done..].
    destruct Hs as [Hs _]. congruence.
  - rewrite Hf. by rewrite app_nil_r, app_assoc.
  - done.
Qed.

Lemma Quiet_push t s : Quiet s → Quiet (push t s).
Proof.
  intros [Hg Hv Hp]. split; [by apply Good_push|done..].
Qed.

Lemma Good_fast t s :
  Good s → tasksProcessSubject s = true →
  Good (begin t (write_subject false (set_tasksQueue [] (push t s)))).
Proof.
  intros [(m & Hm & Hs & Hr) Hf Hp] Hv.
  destruct m; cbn [shape] in *; fields;
    [destruct Hs; congruence| |done|destruct Hs; congruence].
  destruct Hs as (_ & Hpend & Hq & Hfs).
  split; fields; logs.
  - exists Running. rewrite Hm, Hv. cbn. split_and!; try done.
    + rewrite Hpend. simpl. lia.
    + intros Hreq. by specialize (Hr Hreq).
  - rewrite Hf, Hq. by rewrite !app_nil_r.
  - rewrite Hpend. repeat constructor.
Qed.

Lemma addTaskToQueue_Good t s :
  Good s →
  ∃ s', addTaskToQueue t s = Some s' ∧ Good s' ∧
        fs s' = fs s ∧ requesting s' = requesting s ∧ disk s' = disk s.
Proof.
  intros Hg. destruct (tasksProcessSubject s) eqn:Hv.
  - pose proof Hg as [(m & Hm & Hs & Hr) Hf Hp].
    destruct m; cbn [shape] in *; fields;
      [destruct Hs; congruence| |done|destruct Hs; congruence].
    destruct Hs as (_ & Hpend & Hq & [h Hfs]).
    eexists. split; [by eapply addTaskToQueue_fast|].
    split; [by apply Good_fast|done].
  - eexists. split; [by apply addTaskToQueue_busy|].
    split; [by apply Good_push|done].
Qed.

Lemma addTaskToQueue_Quiet t s :
  Quiet s → addTaskToQueue t s = Some (push t s).
Proof. intros [_ Hv _]. by apply addTaskToQueue_busy. Qed.

Lemma perform_eq c s : perform c s = addTaskToQueue (task_of c) s.
Proof. by destruct c. Qed.

Lemma perform_all_Good cs s :
  Good s →
  ∃ s', perform_all cs s = Some s' ∧ Good s' ∧
        fs s' = fs s ∧ requesting s' = requesting s ∧ disk s' = disk s.
Proof.
  revert s. induction cs as [|c cs IH]; intros s Hg; [by exists s|].
  destruct (addTaskToQueue_Good (task_of c) s Hg) as (s1 & E1 & Hg1 & F1 & R1 & D1).
  destruct (IH s1 Hg1) as (s2 & E2 & Hg2 & F2 & R2 & D2).
  exists s2. cbn [perform_all]. rewrite perform_eq, E1. cbn.
  split_and!; try done; congruence.
Qed.

Lemma push_all_Quiet cs s : Quiet s → Quiet (push_all cs s).
Proof.
  revert s. induction cs as [|c cs IH]; intros s Hq; [done|].
  apply IH. by apply Quiet_push.
Qed.

Lemma push_all_frame cs s :
  fs (push_all cs s) = fs s ∧ requesting (push_all cs s) = requesting s ∧
  disk (push_all cs s) = disk s ∧ pending (push_all cs s) = pending s ∧
  tasksProcessSubject (push_all cs s) = tasksProcessSubject s.
Proof.
  revert s. induction cs as [|c cs IH]; intros s; [done|].
  cbn [push_all foldl]. destruct (IH (push (task_of c) s)) as (?&?&?&?&?).
  unfold push_all in *. by split_and!.
Qed.

Lemma perform_all_Quiet cs s :
  Quiet s → perform_all cs s = Some (push_all cs s).
Proof.
  revert s. induction cs as [|c cs IH]; intros s Hq; [done|].
  cbn [perform_all]. rewrite perform_eq, addTaskToQueue_Quiet by done. cbn.
  rewrite IH by (by apply Quiet_push). done.
Qed.

Lemma Good_record_call n a s : Good s → Good (record (ObsCall n a) s).
Proof.
  intros [(m & Hm & Hs & Hr) Hf Hp]. split; fields; logs.
  - exists m. rewrite Hm. split_and!; [done| |done]. by destruct m.
  - by rewrite !app_nil_r.
  - done.
Qed.

Lemma Quiet_record_call n a s : Quiet s → Quiet (record (ObsCall n a) s).
Proof. intros [Hg Hv Hp]. split; [by apply Good_record_call|done..]. Qed.

Lemma invoke_Good cb a s :
  Good s →
  ∃ s', invoke cb a s = Some s' ∧ Good s' ∧
        fs s' = fs s ∧ requesting s' = requesting s ∧ disk s' = disk s.
Proof.
  intros Hg. destruct cb as [[n cs]|]; [|by exists s].
  cbn [invoke].
  destruct (perform_all_Good cs (record (ObsCall n a) s)) as (s' & E & ?);
    [by apply Good_record_call|].
  by exists s'.
Qed.

Lemma invoke_Quiet cb a s :
  Quiet s → invoke cb a s = Some (invoked cb a s).
Proof.
  intros Hq. destruct cb as [[n cs]|]; [|done].
  cbn [invoke invoked]. apply perform_all_Quiet. by apply Quiet_record_call.
Qed.

Lemma invoked_Quiet cb a s : Quiet s → Quiet (invoked cb a s).
Proof.
  intros Hq. destruct cb as [[n cs]|]; [|done].
  apply push_all_Quiet. by apply Quiet_record_call.
Qed.

Lemma invoked_frame cb a s :
  fs (invoked cb a s) = fs s ∧ requesting (invoked cb a s) = requesting s ∧
  disk (invoked cb a s) = disk s.
Proof.
  destruct cb as [[n cs]|]; [|done]. cbn [invoked].
  destruct (push_all_frame cs (record (ObsCall n a) s)) as (?&?&?&?&?).
  by split_and!.
Qed.

Lemma next_true_Good s :
  Quiet s → is_Some (fs s) → requesting s = false →
  ∃ s', next true s = Some s' ∧ Good s' ∧
        fs s' = fs s ∧ requesting s' = requesting s ∧ disk s' = disk s.
Proof.
  intros [[(m & Hm & Hs & Hr) Hf Hp] Hv Hpend] [h Hfs] Hreq.
  assert (monitor (log s) ≫= monitor_step (ObsNext false true) = Some Ready)
    as Hstep.
  { rewrite Hm. destruct m; cbn [shape] in *; fields; try done.
    destruct Hs; congruence. }
  destruct (tasksQueue s) as [|t q] eqn:Hq.
  - eexists. split; [by apply next_true_nil|]. split; [|done].
    split; fields; logs.
    + exists Ready. rewrite Hv, Hstep. cbn. split_and!; try done. congruence.
    + rewrite Hq, Hf. by rewrite !app_nil_r.
    + done.
  - eexists. split; [by eapply next_true_cons|]. split; [|done].
    split; fields; logs.
    + exists Running. rewrite Hv, Hstep. cbn. split_and!; try done.
      * rewrite Hpend. simpl. lia.
      * congruence.
    + rewrite Hf. rewrite !app_nil_r. by rewrite <-app_assoc.
    + rewrite Hpend. repeat constructor.
Qed.

Lemma Taken_env s : Taken s → is_Some (fs s) ∧ requesting s = false.
Proof.
  intros [[[(m & Hm & Hs & Hr) _ _] _ _] Hrun].
  assert (m = Running) as -> by congruence.
  cbn [shape] in Hs. split; [tauto|].
  destruct (requesting s); [|done]. by specialize (Hr eq_refl).
Qed.

Lemma Good_set_disk d s : Good s → Good (set_disk d s).
Proof.
  intros [(m & Hm & Hs & Hr) Hf Hp]. split; fields; try done.
  exists m. split_and!; try done.
Qed.

Lemma Taken_set_disk d s : Taken s → Taken (set_disk d s).
Proof.
  intros [[Hg Hv Hp] Hrun]. split; [split|]; try done. by apply Good_set_disk.
Qed.

Lemma monitor_push_all cs s : monitor (log (push_all cs s)) = monitor (log s).
Proof.
  revert s. induction cs as [|c cs IH]; intros s; [done|].
  cbn [push_all foldl]. unfold push_all in IH. rewrite IH. fields; logs.
  by destruct (monitor (log s)).
Qed.

Lemma Taken_invoked cb a s : Taken s → Taken (invoked cb a s).
Proof.
  intros [Hq Hrun]. split; [by apply invoked_Quiet|].
  destruct cb as [[n cs]|]; [|done]. cbn [invoked].
  rewrite monitor_push_all. fields; logs. by rewrite Hrun.
Qed.

Lemma Good_issue p s : Taken s → wf_pending p → Good (issue p s).
Proof.
  intros Ht Hwf. destruct (Taken_env s Ht) as [Hfs Hreq].
  destruct Ht as [[[_ Hf _] Hv Hpend] Hrun].
  split; fields; try done.
  - exists Running. split_and!; try done.
    + cbn [shape]. fields. rewrite Hpend. split_and!; try done.
    + congruence.
  - rewrite Hpend. repeat constructor. done.
Qed.

(** A completion that calls the caller's function and then writes true. *)
Lemma call_then_signal cb a s :
  Taken s → ∃ s', (invoke cb a s ≫= next true) = Some s' ∧ Good s'.
Proof.
  intros Ht. rewrite invoke_Quiet by apply Ht. cbn.
  pose proof (Taken_invoked cb a s Ht) as Ht'.
  destruct (Taken_env _ Ht') as [Hfs Hreq].
  destruct (next_true_Good (invoked cb a s)) as (s' & E & Hg & _);
    [apply Ht'|done..|].
  by exists s'.
Qed.

(** A completion that writes true and then calls the caller's function. *)
Lemma signal_then_call cb a s :
  Taken s → ∃ s', (next true s ≫= invoke cb a) = Some s' ∧ Good s'.
Proof.
  intros Ht. destruct (Taken_env _ Ht) as [Hfs Hreq].
  destruct (next_true_Good s) as (s1 & E1 & Hg1 & _); [apply Ht|done..|].
  rewrite E1. cbn.
  destruct (invoke_Good cb a s1 Hg1) as (s2 & E2 & Hg2 & _).
  by exists s2.
Qed.

Lemma Good_taken s i p :
  Good s → pending s !! i = Some p →
  Taken (set_pending (delete i (pending s)) s) ∧ wf_pending p.
Proof.
  intros [(m & Hm & Hs & Hr) Hf Hp] Hi.
  assert (wf_pending p) as Hwf.
  { eapply Forall_forall; [exact Hp|]. by eapply list_elem_of_lookup_2. }
  destruct m; cbn [shape] in Hs.
  - destruct Hs as [_ E]. by rewrite E in Hi.
  - destruct Hs as (_ & E & _). by rewrite E in Hi.
  - done.
  - destruct Hs as (Hv & Hlen & Hfs).
    destruct (pending s) as [|p0 [|p1 l]] eqn:E; [done| |simpl in Hlen; lia].
    destruct i as [|i]; [|done]. cbn in Hi.
    split; [|done]. split; [split; [split|..]|]; fields; try done.
    + exists Running. split_and!; try done. cbn [shape]. fields.
      split_and!; try done. simpl. lia.
Qed.

Lemma lift_Good r :
  (∃ s', r = Some s' ∧ Good s') → ∃ s', lift r = Done s' ∧ Good s'.
Proof. intros (s' & -> & Hg). by exists s'. Qed.

Lemma Good_booted s :
  Good s → requesting s = true →
  Quiet (set_fs (Some domFileSystem) (set_requesting false s)).
Proof.
  intros [(m & Hm & Hs & Hr) Hf Hp] Hreq. specialize (Hr Hreq) as ->.
  destruct Hs as [Hv Hpend].
  split; [split|..]; fields; try done.
  exists Booting. by split_and!.
Qed.

Lemma Good_refused s : Good s → Good (set_requesting false s).
Proof.
  intros [(m & Hm & Hs & Hr) Hf Hp]. split; fields; try done.
  exists m. by split_and!.
Qed.

(** The [error] event of a FileWriter reaches the caller's function, if
    there is one. *)
Lemma deliver_onerror g s :
  Taken s →
  deliver (caller_function <$> g) FileError s = Done (invoked g arg_error s).
Proof.
  intros Ht. destruct g as [f|]; cbn [fmap option_fmap option_map deliver];
    [|done].
  cbn [apply]. by rewrite invoke_Quiet by apply Ht.
Qed.

(** Every closure the program registers, called by the browser on the
    request it was registered for, runs without throwing and leaves the
    invariant in place. *)
Lemma complete_Good i ok s :
  Good s →
  complete i ok s = NotEnabled ∨ ∃ s', complete i ok s = Done s' ∧ Good s'.
Proof.
  intros Hg. unfold complete.
  destruct (pending s !! i) as [p|] eqn:Hi; [|by left].
  destruct (Good_taken s i p Hg Hi) as [Ht Hwf].
  set (s0 := set_pending (delete i (pending s)) s) in *. clearbody s0.
  cbv zeta.
  assert (∀ d, Taken (set_disk d s0)) as Htd
    by (intros d; by apply Taken_set_disk).
  inversion Hwf as [t| | | | | |]; subst p; clear Hwf.
  - destruct t; cbn [first_request]; destruct ok;
      repeat case_match; try (by left); right;
      cbn [deliver apply processError]; apply lift_Good;
      try (by apply call_then_signal);
      (eexists; split; [reflexivity|]; apply Good_issue; [done|constructor]).
  - destruct ok; repeat case_match; try (by left); right; cbn [deliver apply].
    + apply lift_Good. eexists; split; [reflexivity|].
      apply Good_issue; [done|constructor].
    + exists s0. split; [done|]. apply Ht.
  - right. destruct ok; cbn [deliver apply onloadend];
      apply lift_Good; by apply signal_then_call.
  - destruct ok; repeat case_match; try (by left); right;
      cbn [deliver apply processError]; apply lift_Good;
      try (by apply call_then_signal).
    eexists; split; [reflexivity|]. unfold install_and_write.
    apply Good_issue; [done|]. apply (wf_write_write _ _ _ _ g).
  - destruct ok; repeat case_match; try (by left); right;
      cbn [deliver apply processError]; apply lift_Good;
      try (by apply call_then_signal).
    eexists; split; [reflexivity|]. unfold install_and_write.
    apply Good_issue; [done|]. apply (wf_write_append _ _ _ g).
  - destruct ok; cbn [onwriteend onerror writer_name];
      [repeat case_match; try (by left)|]; right.
    + cbn [deliver apply]. apply lift_Good. fields.
      apply (call_then_signal _ _ (set_disk _ (set_disk _ s0))).
      by apply Taken_set_disk.
    + rewrite (deliver_onerror g s0 Ht). cbn [then_deliver deliver apply].
      apply lift_Good.
      apply (call_then_signal _ _ (set_disk _ (invoked g arg_error s0))).
      by apply Taken_set_disk, Taken_invoked.
  - destruct ok; cbn [onwriteend onerror writer_name];
      [repeat case_match; try (by left)|]; right.
    + cbn [deliver apply]. apply lift_Good. by apply call_then_signal.
    + rewrite (deliver_onerror g s0 Ht). cbn [then_deliver deliver apply].
      apply lift_Good. apply call_then_signal. by apply Taken_invoked.
Qed.

Lemma step_Good s e :
  Good s → step s e = NotEnabled ∨ ∃ s', step s e = Done s' ∧ Good s'.
Proof.
  intros Hg. destruct e as [c|ok|i ok]; cbn [step].
  - right. apply lift_Good. rewrite perform_eq.
    destruct (addTaskToQueue_Good (task_of c) s Hg) as (s' & E & Hg' & _).
    by exists s'.
  - destruct (requesting s) eqn:Hreq; [|by left]. right.
    destruct ok.
    + apply lift_Good. unfold initFs.
      destruct (next_true_Good
                  (set_fs (Some domFileSystem) (set_requesting false s)))
        as (s' & E & Hg' & _); [by apply Good_booted|done..|].
      by exists s'.
    + eexists. split; [done|]. by apply Good_refused.
  - by apply complete_Good.
Qed.

Lemma constructor_eq files :
  constructor files =
  Some {| fs := None; tasksProcessSubject := false; tasksQueue := [];
          requesting := true; disk := files; pending := [];
          log := [ObsNotify false] |}.
Proof. reflexivity. Qed.

Lemma constructor_Good files s : constructor files = Some s → Good s.
Proof.
  rewrite constructor_eq. intros [= <-]. split; fields; try done.
  exists Booting. by split_and!.
Qed.

Lemma reachable_Good s : reachable s → Good s.
Proof.
  induction 1 as [files s Hc|s e s' _ IH Hstep].
  - by eapply constructor_Good.
  - destruct (step_Good s e IH) as [E|(s1 & E & Hg)]; congruence.
Qed.

(** ** Runs *)

Lemma initial_eq files : constructor files = Some (initial files).
Proof. reflexivity. Qed.

Lemma reachable_initial files : reachable (initial files).
Proof. by apply (reachable_new files). Qed.

Lemma exec_reachable s es s' :
  reachable s → exec s es = Done s' → reachable s'.
Proof.
  revert s. induction es as [|e es IH]; intros s Hr; cbn [exec].
  - by intros [= <-].
  - destruct (step s e) as [s1| |] eqn:E; [|done..].
    apply IH. by eapply reachable_step.
Qed.

Lemma reachable_state_after es : reachable (state_after es).
Proof.
  unfold state_after. destruct (exec (initial ∅) es) as [s| |] eqn:E;
    [|apply reachable_initial..].
  eapply exec_reachable; [apply reachable_initial|exact E].
Qed.

Lemma exec_app s es1 es2 :
  exec s (es1 ++ es2) =
  match exec s es1 with
  | Done s1 => exec s1 es2
  | o => o
  end.
Proof.
  revert s. induction es1 as [|e es1 IH]; intros s; cbn [exec app]; [done|].
  by destruct (step s e).
Qed.

(** ** Facts about logs accepted by the automaton *)

Lemma monitor_from_None l : monitor_from None l = None.
Proof. induction l; [done|]. by cbn. Qed.

Lemma monitor_from_cons m o l :
  monitor_from m (o :: l) = monitor_from (m ≫= monitor_step o) l.
Proof. reflexivity. Qed.

Lemma monitor_app l1 l2 : monitor (l1 ++ l2) = monitor_from (monitor l1) l2.
Proof. unfold monitor, monitor_from. by rewrite foldl_app. Qed.

Lemma monitor_from_Some m l m' :
  monitor_from m l = Some m' → ∃ m0, m = Some m0.
Proof.
  destruct m as [m0|]; [by exists m0|]. by rewrite monitor_from_None.
Qed.

Lemma signal_from_app v l1 l2 :
  signal_from v (l1 ++ l2) = signal_from (signal_from v l1) l2.
Proof. unfold signal_from. by rewrite foldl_app. Qed.

Lemma monitor_step_value o m m' :
  monitor_step o m = Some m' →
  match o with ObsNext _ w => w | _ => phase_value m end = phase_value m'.
Proof.
  destruct o as [t|t|[] []|v|n a], m; cbn; intros [= <-]; done.
Qed.

Lemma monitor_from_signal l : ∀ m m',
  monitor_from (Some m) l = Some m' →
  signal_from (phase_value m) l = phase_value m'.
Proof.
  induction l as [|o l IH]; intros m m'.
  - by intros [= <-].
  - rewrite monitor_from_cons. intros H.
    destruct (monitor_from_Some _ _ _ H) as [m1 E]. rewrite E in H.
    cbn in E. apply monitor_step_value in E. cbn [signal_from foldl].
    rewrite E. by apply IH.
Qed.

Lemma monitor_signal l m :
  monitor l = Some m → signal_after l = phase_value m.
Proof. apply (monitor_from_signal l Booting m). Qed.

(** While the automaton stays in [Running] no body begins and the
    subject is not written; it leaves [Running] only by a write of true
    over false. *)
Lemma running_span l : ∀ m',
  monitor_from (Some Running) l = Some m' →
  ObsNext false true ∈ l ∨ (m' = Running ∧ started l = [] ∧ writes l = []).
Proof.
  induction l as [|o l IH]; intros m'.
  - intros [= <-]. by right.
  - rewrite monitor_from_cons. intros H.
    destruct (monitor_from_Some _ _ _ H) as [m1 E]. rewrite E in H.
    destruct o as [t|t|[] []|v|n a]; cbn in E; try done;
      try (injection E as <-; destruct (IH m' H) as [?|(?&Hs&Hw)];
           [left; by apply list_elem_of_further
           |right; split_and!; [done|exact Hs|exact Hw]]).
    left. apply list_elem_of_here.
Qed.

(** A body begins only from [Claimed], and [Claimed] is entered only
    by a write of false over true. *)
Lemma monitor_step_Claimed o m :
  monitor_step o m = Some Claimed →
  o = ObsNext true false ∨ (m = Claimed ∧ started [o] = [] ∧ writes [o] = []).
Proof.
  destruct o as [t|t|[] []|v|n a], m; cbn; intros [=]; (by left) || by right.
Qed.

Lemma claimed_before l :
  monitor l = Some Claimed →
  ∃ l0 l1, l = l0 ++ ObsNext true false :: l1 ∧
           started l1 = [] ∧ writes l1 = [].
Proof.
  induction l as [|o l IH] using rev_ind; [done|].
  rewrite monitor_snoc. intros H.
  destruct (monitor l) as [m|] eqn:Hm; [|done]. cbn in H.
  destruct (monitor_step_Claimed _ _ H) as [->|(-> & Hs & Hw)].
  - by exists l, [].
  - destruct (IH eq_refl) as (l0 & l1 & -> & Hs1 & Hw1).
    exists l0, (l1 ++ [o]). rewrite <-app_assoc. split; [done|].
    unfold started, writes in *. rewrite !omap_app.
    by rewrite Hs, Hw, Hs1, Hw1.
Qed.

Lemma monitor_run_inv l1 t l2 m :
  monitor (l1 ++ ObsRun t :: l2) = Some m →
  monitor l1 = Some Claimed ∧ monitor_from (Some Running) l2 = Some m.
Proof.
  rewrite monitor_app, monitor_from_cons. intros H.
  destruct (monitor_from_Some _ _ _ H) as [m1 E].
  destruct (monitor l1) as [[]|]; cbn in E; done.
Qed.

Lemma monitor_prefix l1 l2 m :
  monitor (l1 ++ l2) = Some m → ∃ m1, monitor l1 = Some m1.
Proof. rewrite monitor_app. apply monitor_from_Some. Qed.

Lemma monitor_writes l : ∀ m m',
  monitor_from (Some m) l = Some m' →
  Forall (λ bv, bv.1 ≠ bv.2) (writes l).
Proof.
  induction l as [|o l IH]; intros m m'; [by constructor|].
  rewrite monitor_from_cons. intros H.
  destruct (monitor_from_Some _ _ _ H) as [m1 E]. rewrite E in H.
  specialize (IH _ _ H).
  destruct o as [t|t|[] []|v|n a]; cbn [writes omap] in *; try done;
    destruct m; cbn in E; try done; by constructor.
Qed.

(** ** Pushes *)

Lemma addTaskToQueue_pushed t s s' :
  addTaskToQueue t s = Some s' → pushed (log s') = pushed (log s) ++ [t].
Proof.
  unfold addTaskToQueue. fields.
  destruct ((length (tasksQueue s ++ [t]) =? 1) && tasksProcessSubject s)
    eqn:Hc.
  - apply andb_true_iff in Hc as [Hlen Hv].
    rewrite deQueueTask_eq. unfold deQueueTask_with. fields.
    destruct (tasksQueue s ++ [t]) as [|t0 q]; [done|].
    rewrite next_false. cbn [mbind option_bind]. unfold run. fields.
    case_match; [|done]. intros [= <-]. fields.
    unfold pushed. rewrite !omap_app. cbn. by rewrite !app_nil_r.
  - intros [= <-]. fields. by logs.
Qed.

(** A write to the subject is followed at once by the call of the
    subscriber with the value written. *)
Lemma next_log w s s' :
  next w s = Some s' →
  ∃ l, log s' = log s ++ ObsNext (getValue s) w :: ObsNotify w :: l.
Proof.
  intros E. rewrite next_eq in E. unfold subscriber_with in E. fields.
  destruct (w && (0 <? length (tasksQueue s))) eqn:Hc.
  - rewrite deQueueTask_eq in E. unfold deQueueTask_with in E. fields.
    destruct (tasksQueue s) as [|t q]; [done|].
    rewrite next_false in E. cbn [mbind option_bind] in E.
    unfold run in E. fields. case_match; [|done].
    injection E as <-. fields. rewrite <-!app_assoc. by eexists.
  - injection E as <-. fields. rewrite <-!app_assoc. by exists [].
Qed.

(** * The claims *)

(** C3 (single flight).  In every reachable state at most one request
    of a task is outstanding, the subject holds false while one is, and
    the log obeys the protocol: whenever a body has begun, the last write
    before it was deQueueTask's false over true, and from then on either a
    completion has written true over false, or the subject still holds
    false and no other body has begun. *)
Theorem C3_single_flight s :
  reachable s →
  length (pending s) ≤ 1 ∧
  (pending s ≠ [] → tasksProcessSubject s = false) ∧
  signal_after (log s) = tasksProcessSubject s ∧
  ∀ l1 t l2 l3, log s = l1 ++ ObsRun t :: l2 ++ l3 →
    (∃ l0 l0', l1 = l0 ++ ObsNext true false :: l0' ∧
               started l0' = [] ∧ writes l0' = []) ∧
    signal_after l1 = false ∧
    (ObsNext false true ∈ l2 ∨
     (signal_after (l1 ++ ObsRun t :: l2) = false ∧ started l2 = [])).
Proof.
  intros Hr. destruct (reachable_Good s Hr) as [(m & Hm & Hs & _) _ _].
  split_and!.
  - destruct m; cbn [shape] in Hs; [| |done|].
    + destruct Hs as [_ ->]. simpl. lia.
    + destruct Hs as (_ & -> & _). simpl. lia.
    + tauto.
  - destruct m; cbn [shape] in Hs; [| |done|].
    + by destruct Hs as [_ ->].
    + by destruct Hs as (_ & -> & _).
    + tauto.
  - rewrite (monitor_signal _ _ Hm).
    destruct m; cbn [shape phase_value] in *; [| |done|].
    + by destruct Hs as [-> _].
    + by destruct Hs as (-> & _).
    + by destruct Hs as (-> & _).
  - intros l1 t l2 l3 El. rewrite El in Hm.
    replace (l1 ++ ObsRun t :: l2 ++ l3) with ((l1 ++ ObsRun t :: l2) ++ l3)
      in Hm by (by rewrite <-app_assoc).
    destruct (monitor_prefix _ _ _ Hm) as [m1 Hm1].
    destruct (monitor_run_inv _ _ _ _ Hm1) as [Hc Hspan].
    split_and!.
    + by apply claimed_before.
    + by rewrite (monitor_signal _ _ Hc).
    + destruct (running_span _ _ Hspan) as [?|(-> & Hst & _)]; [by left|].
      right. by rewrite (monitor_signal _ _ Hm1).
Qed.

Lemma C3_single_flight_witness :
  reachable (state_after scenario_A) ∧
  length (pending (state_after scenario_A)) ≤ 1.
Proof.
  assert (reachable (state_after scenario_A)) as Hr.
  { apply (exec_reachable (initial ∅) scenario_A);
      [apply reachable_initial|vm_compute; reflexivity]. }
  split; [exact Hr|]. apply (C3_single_flight _ Hr).
Defined.

(** C4 (no double drain).  In every reachable state no event makes the
    code throw, so deQueueTask never meets an empty queue; the bodies
    begun are exactly the first of the tasks pushed and the queue holds
    exactly the rest, so none is taken twice and none is skipped; and a
    drain attempt is a no-op when the queue is empty (the subscriber only
    notes the value) or a task is in flight (a submission only appends). *)
Theorem C4_no_double_drain s :
  reachable s →
  (∀ e, step s e ≠ TypeError) ∧
  started (log s) = take (length (started (log s))) (pushed (log s)) ∧
  tasksQueue s = drop (length (started (log s))) (pushed (log s)) ∧
  (∀ v, tasksQueue s = [] → subscriber v s = Some (record (ObsNotify v) s)) ∧
  subscriber false s = Some (record (ObsNotify false) s) ∧
  (∀ t, tasksProcessSubject s = false → addTaskToQueue t s = Some (push t s)).
Proof.
  intros Hr. pose proof (reachable_Good s Hr) as Hg.
  destruct Hg as [_ Hf _]. split_and!.
  - intros e. destruct (step_Good s e (reachable_Good s Hr)) as [E|(s'&E&_)];
      by rewrite E.
  - rewrite Hf. by rewrite take_app_length.
  - rewrite Hf. by rewrite drop_app_length.
  - intros v Hq. unfold subscriber, subscriber_with. fields. rewrite Hq.
    by rewrite andb_false_r.
  - done.
  - intros t Hv. by apply addTaskToQueue_busy.
Qed.

Lemma C4_no_double_drain_witness :
  reachable (state_after scenario_A) ∧
  ∀ e, step (state_after scenario_A) e ≠ TypeError.
Proof.
  assert (reachable (state_after scenario_A)) as Hr.
  { apply (exec_reachable (initial ∅) scenario_A);
      [apply reachable_initial|vm_compute; reflexivity]. }
  split; [exact Hr|]. apply (C4_no_double_drain _ Hr).
Defined.

(** C6 (fast path).  A submission drains at once exactly when, after
    the push, the queue holds one task and the subject reads true: then
    the body of that task begins within the same call, and the only write
    to the subject is the drain's own false (no write of true was needed).
    In every other case the submission appends the task and nothing
    begins. *)
Theorem C6_fast_path s t :
  reachable s →
  (length (tasksQueue s ++ [t]) = 1 → tasksProcessSubject s = true →
   ∃ s', addTaskToQueue t s = Some s' ∧
         log s' = log s ++ [ObsPush t; ObsNext true false; ObsNotify false;
                            ObsRun t] ∧
         tasksQueue s' = [] ∧ pending s' = [first_request t]) ∧
  (length (tasksQueue s ++ [t]) ≠ 1 ∨ tasksProcessSubject s = false →
   addTaskToQueue t s = Some (push t s) ∧
   started (log (push t s)) = started (log s) ∧
   writes (log (push t s)) = writes (log s)).
Proof.
  intros Hr. pose proof (reachable_Good s Hr) as [(m & Hm & Hs & _) _ _].
  split.
  - intros Hlen Hv.
    destruct m; cbn [shape] in Hs;
      [destruct Hs; congruence| |done|destruct Hs; congruence].
    destruct Hs as (_ & Hp & Hq & [h Hfs]).
    eexists. split; [by eapply addTaskToQueue_fast|]. fields.
    rewrite ?Hv, ?Hp, ?Hq. rewrite <-!app_assoc. done.
  - intros Hcase.
    assert (addTaskToQueue t s = Some (push t s)) as ->.
    { destruct (tasksProcessSubject s) eqn:Hv;
        [|by apply addTaskToQueue_busy].
      destruct Hcase as [Hlen|?]; [|done].
      apply addTaskToQueue_behind. intros Hq. rewrite Hq in Hlen. done. }
    split; [done|]. fields. unfold started, writes. rewrite !omap_app.
    cbn. by rewrite !app_nil_r.
Qed.

Lemma C6_fast_path_witness :
  reachable idle ∧
  ∃ s', addTaskToQueue (readFile_task "a.txt" None None) idle = Some s' ∧
        tasksQueue s' = [] ∧
        pending s' = [first_request (readFile_task "a.txt" None None)].
Proof.
  assert (reachable idle) as Hr.
  { apply (exec_reachable (initial ∅) [requestFileSystem_result true]);
      [apply reachable_initial|vm_compute; reflexivity]. }
  split; [exact Hr|].
  destruct (C6_fast_path idle (readFile_task "a.txt" None None) Hr)
    as [Hfast _].
  destruct Hfast as (s' & E & _ & Hq & Hp);
    [vm_compute; reflexivity..|].
  by exists s'.
Defined.

(** C7 (initialisation never completes).  In every run in which the
    file system request is never granted, the subject still holds false,
    [fs] is undefined, no body has begun, no caller's function has been
    called, and every task submitted is still in the queue. *)
Theorem C7_never_initialised files es s :
  Forall (λ e, e ≠ requestFileSystem_result true) es →
  exec (initial files) es = Done s →
  tasksProcessSubject s = false ∧ fs s = None ∧ started (log s) = [] ∧
  called (log s) = [] ∧ writes (log s) = [] ∧
  tasksQueue s = pushed (log s) ∧ pending s = [].
Proof.
  assert (∀ es s0 s,
    Forall (λ e, e ≠ requestFileSystem_result true) es →
    (tasksProcessSubject s0 = false ∧ fs s0 = None ∧ started (log s0) = [] ∧
     called (log s0) = [] ∧ writes (log s0) = [] ∧
     tasksQueue s0 = pushed (log s0) ∧ pending s0 = []) →
    exec s0 es = Done s →
    tasksProcessSubject s = false ∧ fs s = None ∧ started (log s) = [] ∧
    called (log s) = [] ∧ writes (log s) = [] ∧
    tasksQueue s = pushed (log s) ∧ pending s = []) as Hgen.
  { clear. intros es s0 s Hes. revert s0.
    induction Hes as [|e es He _ IH]; intros s0 Hinv; cbn [exec].
    - by intros [= <-].
    - destruct Hinv as (Hv & Hfs & Hst & Hca & Hw & Hq & Hp).
      destruct e as [c|ok|i ok]; cbn [step].
      + rewrite perform_eq, addTaskToQueue_busy by done. cbn [lift].
        apply IH. fields. unfold started, called, writes, pushed in *.
        rewrite !omap_app. cbn. rewrite Hst, Hca, Hw, Hq. done.
      + destruct (requesting s0); [|done].
        destruct ok; [done|]. apply IH. by fields.
      + unfold complete. by rewrite Hp. }
  intros Hes. apply Hgen; [done|]. by cbn.
Qed.

Lemma C7_never_initialised_witness :
  Forall (λ e, e ≠ requestFileSystem_result true) scenario_refused ∧
  tasksProcessSubject (state_after scenario_refused) = false ∧
  started (log (state_after scenario_refused)) = [] ∧
  called (log (state_after scenario_refused)) = [].
Proof.
  assert (Forall (λ e, e ≠ requestFileSystem_result true) scenario_refused)
    as Hes by (repeat constructor; discriminate).
  split; [exact Hes|].
  assert (exec (initial ∅) scenario_refused =
          Done (state_after scenario_refused)) as Hex
    by (vm_compute; reflexivity).
  destruct (C7_never_initialised ∅ scenario_refused _ Hes Hex)
    as (Hv & _ & Hst & Hca & _).
  by split_and!.
Defined.

(** C9, counterexample.  On an idle FileHandler the subject holds true;
    writing true again still calls the subscriber. *)
Lemma C9_counterexample :
  getValue idle = true ∧
  (log <$> next true idle) =
    Some (log idle ++ [ObsNext true true; ObsNotify true]) ∧
  ¬ notifies_on_change_only.
Proof.
  split_and!; [reflexivity..|].
  intros H.
  destruct (H idle (write_subject true idle) true) as [Hfwd _];
    [vm_compute; reflexivity|].
  apply Hfwd; [vm_compute; lia|reflexivity].
Qed.

(** C9, amended.  A write to the subject stores the value and calls the
    subscriber with it whatever value was held before; and in every
    reachable state of the FileHandler each write made so far changed the
    value, so there the subscriber was called on changes only. *)
Theorem C9_notification s :
  reachable s →
  (∀ w s', next w s = Some s' →
     ∃ l, log s' = log s ++ ObsNext (getValue s) w :: ObsNotify w :: l) ∧
  Forall (λ bv, bv.1 ≠ bv.2) (writes (log s)).
Proof.
  intros Hr. split.
  - intros w s'. apply next_log.
  - destruct (reachable_Good s Hr) as [(m & Hm & _) _ _].
    by eapply monitor_writes.
Qed.

Lemma C9_notification_witness :
  reachable (state_after scenario_A) ∧
  Forall (λ bv, bv.1 ≠ bv.2) (writes (log (state_after scenario_A))).
Proof.
  assert (reachable (state_after scenario_A)) as Hr.
  { apply (exec_reachable (initial ∅) scenario_A);
      [apply reachable_initial|vm_compute; reflexivity]. }
  split; [exact Hr|]. apply (C9_notification _ Hr).
Defined.

(** ** The log only grows *)

Lemma next_true_log s s' :
  tasksProcessSubject s = false → next true s = Some s' →
  log s' = log s ++ ObsNext false true :: ObsNotify true ::
           drain_log (tasksQueue s).
Proof.
  intros Hv. rewrite next_eq. unfold subscriber_with. fields.
  destruct (tasksQueue s) as [|t q] eqn:Hq; cbn [length Nat.ltb Nat.leb andb].
  - intros [= <-]. fields. rewrite Hv, <-!app_assoc. done.
  - rewrite deQueueTask_eq. unfold deQueueTask_with. fields. rewrite Hq.
    rewrite next_false. cbn [mbind option_bind]. unfold run. fields.
    case_match; [|done]. intros [= <-]. fields. rewrite Hv, <-!app_assoc.
    done.
Qed.

Lemma addTaskToQueue_log t s s' :
  addTaskToQueue t s = Some s' → ∃ l, log s' = log s ++ l.
Proof.
  unfold addTaskToQueue. fields.
  destruct ((length (tasksQueue s ++ [t]) =? 1) && tasksProcessSubject s).
  - rewrite deQueueTask_eq. unfold deQueueTask_with. fields.
    destruct (tasksQueue s ++ [t]) as [|t0 q]; [done|].
    rewrite next_false. cbn [mbind option_bind]. unfold run. fields.
    case_match; [|done]. intros [= <-]. fields. rewrite <-!app_assoc.
    by eexists.
  - intros [= <-]. fields. by eexists.
Qed.

Lemma perform_all_log cs : ∀ s s',
  perform_all cs s = Some s' → ∃ l, log s' = log s ++ l.
Proof.
  induction cs as [|c cs IH]; intros s s'; cbn [perform_all].
  - intros [= <-]. exists []. by rewrite app_nil_r.
  - rewrite perform_eq.
    destruct (addTaskToQueue (task_of c) s) as [s1|] eqn:E1; [|done]. cbn.
    intros E2. destruct (addTaskToQueue_log _ _ _ E1) as [l1 El1].
    destruct (IH _ _ E2) as [l2 El2]. exists (l1 ++ l2).
    by rewrite El2, El1, <-app_assoc.
Qed.

Lemma push_all_log cs : ∀ s,
  log (push_all cs s) = log s ++ (ObsPush <$> (task_of <$> cs)).
Proof.
  induction cs as [|c cs IH]; intros s; cbn [push_all foldl fmap list_fmap].
  - by rewrite app_nil_r.
  - unfold push_all in IH. rewrite IH. fields. by rewrite <-app_assoc.
Qed.

Lemma push_all_queue cs : ∀ s,
  tasksQueue (push_all cs s) = tasksQueue s ++ (task_of <$> cs).
Proof.
  induction cs as [|c cs IH]; intros s; cbn [push_all foldl fmap list_fmap].
  - by rewrite app_nil_r.
  - unfold push_all in IH. rewrite IH. fields. by rewrite <-app_assoc.
Qed.

Lemma Good_taken_head s p :
  Good s → pending s = [p] → Taken (set_pending [] s) ∧ wf_pending p.
Proof.
  intros Hg Hp. destruct (Good_taken s 0 p Hg) as [Ht Hwf];
    [by rewrite Hp|].
  by rewrite Hp in Ht.
Qed.

Lemma complete_head s p ok :
  pending s = [p] →
  complete 0 ok s =
  let s := set_pending [] s in
  match p with
  | getFile_call name create successCallback errorCallback =>
      if ok then
        match disk s !! name with
        | Some _ => deliver (Some successCallback) (FileEntry name) s
        | None =>
            if create then
              deliver (Some successCallback) (FileEntry name)
                (set_disk (<[name := EmptyString]> (disk s)) s)
            else NotEnabled
        end
      else deliver errorCallback FileError s
  | file_call name successCallback errorCallback =>
      if ok then
        match disk s !! name with
        | Some content => deliver (Some successCallback) (File content) s
        | None => NotEnabled
        end
      else deliver errorCallback FileError s
  | createWriter_call name successCallback errorCallback =>
      if ok then
        match disk s !! name with
        | Some content =>
            deliver (Some successCallback)
              (Writer {| writer_name := name; position := 0;
                         writer_length := String.length content;
                         onwriteend := None; onerror := None |}) s
        | None => NotEnabled
        end
      else deliver errorCallback FileError s
  | readAsText_call reader file =>
      if ok then deliver (onloadend reader) (ProgressEvent file) s
      else deliver (onloadend reader) ProgressEventNull s
  | write_call fileWriter blob =>
      if ok then
        match disk s !! writer_name fileWriter with
        | Some content =>
            deliver (onwriteend fileWriter) (Writer fileWriter)
              (set_disk (<[writer_name fileWriter :=
                             write_at (position fileWriter) blob content]>
                           (disk s)) s)
        | None => NotEnabled
        end
      else
        then_deliver (deliver (onerror fileWriter) FileError s)
          (onwriteend fileWriter) (Writer fileWriter)
  end.
Proof. intros Hp. unfold complete. by rewrite Hp. Qed.

(** C10 (signal versus callback).  When the browser delivers the text of
    a read, the handler first writes true to the subject, the subscriber
    runs and begins the body of the next queued task if there is one, and
    only then the caller's success function is called.  When the browser
    acknowledges a write or an append, the caller's success function is
    called first (whatever it submits is only appended), and the subject is
    written afterwards. *)
Theorem C10_signal_and_callback_order s n cs :
  reachable s →
  (∀ file,
     pending s = [readAsText_call
                    {| onloadend := Some (readFile_onloadend
                                            (Some (UserFunction n cs))) |}
                    file] →
     ∃ s' l, step s (backend 0 true) = Done s' ∧
       log s' = log s ++ ObsNext false true :: ObsNotify true ::
                drain_log (tasksQueue s) ++
                ObsCall n (arg_result file) :: l) ∧
  (∀ w blob h content,
     pending s = [write_call w blob] →
     onwriteend w = Some h →
     h = writeFile_onwriteend blob (Some (UserFunction n cs)) ∨
     h = appendToFile_onwriteend (Some (UserFunction n cs)) →
     disk s !! writer_name w = Some content →
     ∃ s', step s (backend 0 true) = Done s' ∧
       log s' = log s ++ ObsCall n arg_none :: (ObsPush <$> (task_of <$> cs)) ++
                ObsNext false true :: ObsNotify true ::
                drain_log (tasksQueue s ++ (task_of <$> cs))).
Proof.
  intros Hr. pose proof (reachable_Good s Hr) as Hg. split.
  - intros file Hp.
    destruct (Good_taken_head s _ Hg Hp) as [Ht _].
    cbn [step]. rewrite (complete_head _ _ _ Hp).
    cbv zeta. cbn [deliver apply onloadend].
    set (s0 := set_pending [] s) in *.
    destruct (Taken_env _ Ht) as [Hfs Hreq].
    destruct (next_true_Good s0) as (s1 & E1 & Hg1 & _);
      [apply Ht|done..|].
    rewrite E1. cbn [mbind option_bind].
    destruct (invoke_Good (Some (UserFunction n cs)) (arg_result file) s1 Hg1)
      as (s2 & E2 & _).
    rewrite E2. cbn [lift]. cbn [invoke] in E2.
    destruct (perform_all_log _ _ _ E2) as [l El].
    exists s2, l. split; [done|]. rewrite El. fields.
    rewrite (next_true_log s0 s1) by (done || apply Ht).
    subst s0. fields. by rewrite <-!app_assoc.
  - intros w blob h content Hp Hw Hh Hd.
    destruct (Good_taken_head s _ Hg Hp) as [Ht _].
    cbn [step]. rewrite (complete_head _ _ _ Hp).
    cbv zeta.
    replace (disk (set_pending [] s)) with (disk s) by done.
    rewrite Hd, Hw.
    set (s0 := set_pending [] s) in *.
    set (s1 := set_disk _ s0).
    assert (∃ d, apply h (Writer w) s1 =
            invoke (Some (UserFunction n cs)) arg_none (set_disk d s0)
              ≫= next true) as [d Ed].
    { destruct Hh as [-> | ->]; cbn [apply]; by eexists. }
    cbn [deliver]. rewrite Ed. clear Ed s1.
    pose proof (Taken_set_disk d _ Ht) as Ht'.
    rewrite invoke_Quiet by apply Ht'. cbn [mbind option_bind].
    pose proof (Taken_invoked (Some (UserFunction n cs)) arg_none _ Ht')
      as Ht''.
    destruct (Taken_env _ Ht'') as [Hfs Hreq].
    destruct (next_true_Good _ (taken_quiet _ Ht'') Hfs Hreq)
      as (s2 & E2 & _).
    exists s2. split; [by rewrite E2|].
    rewrite (next_true_log _ s2) by (done || apply Ht'').
    cbn [invoked]. rewrite push_all_log, push_all_queue. subst s0. fields.
    by rewrite <-!app_assoc.
Qed.

Lemma C10_signal_and_callback_order_witness :
  reachable (state_after scenario_read_loading) ∧
  reachable (state_after scenario_write_ending) ∧
  (∃ s' l, step (state_after scenario_read_loading) (backend 0 true) = Done s' ∧
     log s' = log (state_after scenario_read_loading) ++
       ObsNext false true :: ObsNotify true ::
       drain_log (tasksQueue (state_after scenario_read_loading)) ++
       ObsCall 1 (arg_result "hello") :: l) ∧
  (∃ s', step (state_after scenario_write_ending) (backend 0 true) = Done s' ∧
     log s' = log (state_after scenario_write_ending) ++
       ObsCall 2 arg_none :: (ObsPush <$> (task_of <$> [])) ++
       ObsNext false true :: ObsNotify true ::
       drain_log (tasksQueue (state_after scenario_write_ending) ++
                  (task_of <$> []))).
Proof.
  assert (reachable (state_after scenario_read_loading)) as Hr1.
  { apply (exec_reachable (initial ∅) scenario_read_loading);
      [apply reachable_initial|vm_compute; reflexivity]. }
  assert (reachable (state_after scenario_write_ending)) as Hr2.
  { apply (exec_reachable (initial ∅) scenario_write_ending);
      [apply reachable_initial|vm_compute; reflexivity]. }
  split_and!; [exact Hr1|exact Hr2| |].
  - apply (C10_signal_and_callback_order _ 1 [] Hr1).
    vm_compute; reflexivity.
  - eapply (C10_signal_and_callback_order _ 2 [] Hr2);
      [vm_compute; reflexivity|vm_compute; reflexivity|left; reflexivity
      |vm_compute; reflexivity].
Defined.

(** ** File contents *)

Lemma substring_none n s : String.substring n 0 s = EmptyString.
Proof.
  revert n. induction s as [|c s IH]; intros [|n]; cbn; try done.
Qed.

Lemma string_app_cons c a b : String c a +:+ b = String c (a +:+ b).
Proof. reflexivity. Qed.

Lemma string_app_nil_l b : EmptyString +:+ b = b.
Proof. reflexivity. Qed.

Lemma substring_prefix a r :
  String.substring 0 (String.length a) (a +:+ r) = a.
Proof.
  induction a as [|c a IH].
  - rewrite string_app_nil_l. apply substring_none.
  - rewrite string_app_cons. cbn [String.length String.substring].
    by rewrite IH.
Qed.

Lemma string_app_nil_r a : a +:+ EmptyString = a.
Proof.
  induction a as [|c a IH]; [done|]. by rewrite string_app_cons, IH.
Qed.

Lemma string_app_length a b :
  String.length (a +:+ b) = String.length a + String.length b.
Proof.
  induction a as [|c a IH]; [done|].
  rewrite string_app_cons. cbn [String.length]. by rewrite IH.
Qed.

(** Writing at position 0 and truncating to the blob's size leaves the
    blob, whatever the file held. *)
Lemma overwrite_exact blob content :
  truncate (String.length blob) (write_at 0 blob content) = blob.
Proof.
  unfold truncate, write_at. rewrite substring_none, string_app_nil_l.
  rewrite substring_prefix, string_app_length.
  replace (String.length blob - (String.length blob + _)) with 0 by lia.
  apply string_app_nil_r.
Qed.

(** Writing at the end of the file extends it by the blob. *)
Lemma append_exact blob content :
  write_at (String.length content) blob content = content +:+ blob.
Proof.
  unfold write_at.
  replace (String.length content - _) with 0 by lia.
  rewrite substring_none, string_app_nil_r.
  pose proof (substring_prefix content EmptyString) as H.
  rewrite string_app_nil_r in H. by rewrite H.
Qed.

(** C8 (scenario D).  Over a disk without [d.txt], writing [A], then
    appending [B], then reading, each request answered with success, calls
    the read's success function with [AB]; the file holds exactly [A] after
    the write and [AB] at the end.  The same holds when the three calls are
    made before the file system is granted.  For any contents, an overwrite
    leaves exactly the blob and an append at the end of the file extends the
    file by the blob. *)
Theorem C8_write_append_read :
  exec (initial ∅) scenario_D = Done (state_after scenario_D) ∧
  called (log (state_after scenario_D)) = [(1, arg_result "AB")] ∧
  disk (state_after (take 7 scenario_D)) !! "d.txt" = Some "A"%string ∧
  disk (state_after scenario_D) !! "d.txt" = Some "AB"%string ∧
  started (log (state_after scenario_D)) =
    [writeFile_task "d.txt" "A" None None;
     appendToFile_task "d.txt" "B" None None;
     readFile_task "d.txt" (Some (UserFunction 1 [])) None] ∧
  exec (initial ∅) scenario_D_early = Done (state_after scenario_D_early) ∧
  called (log (state_after scenario_D_early)) = [(1, arg_result "AB")] ∧
  (∀ blob content,
     truncate (String.length blob) (write_at 0 blob content) = blob) ∧
  (∀ blob content,
     write_at (position
                 (seek (String.length content)
                    {| writer_name := "d.txt"; position := 0;
                       writer_length := String.length content;
                       onwriteend := None; onerror := None |}))
       blob content = content +:+ blob).
Proof.
  split_and!; try (vm_compute; reflexivity).
  - apply overwrite_exact.
  - intros blob content. cbn [seek position writer_length].
    rewrite Nat.min_id. apply append_exact.
Qed.

(** ** A stalled queue stays stalled *)

Lemma stalled_forever es : ∀ s s',
  tasksProcessSubject s = false → pending s = [] → requesting s = false →
  exec s es = Done s' →
  tasksProcessSubject s' = false ∧ pending s' = [] ∧
  started (log s') = started (log s) ∧ called (log s') = called (log s).
Proof.
  induction es as [|e es IH]; intros s s' Hv Hp Hreq; cbn [exec].
  - by intros [= <-].
  - destruct e as [c|ok|i ok]; cbn [step].
    + rewrite perform_eq, addTaskToQueue_busy by done. cbn [lift].
      intros E. apply IH in E as (?&?&Hst&Hca); [|done..].
      split_and!; [done..| |].
      * rewrite Hst. fields. unfold started. rewrite omap_app. cbn.
        by rewrite app_nil_r.
      * rewrite Hca. fields. unfold called. rewrite omap_app. cbn.
        by rewrite app_nil_r.
    + by rewrite Hreq.
    + unfold complete. by rewrite Hp.
Qed.

(** ** Completions hand the queue on *)

Lemma perform_all_busy cs : ∀ s,
  tasksProcessSubject s = false → perform_all cs s = Some (push_all cs s).
Proof.
  induction cs as [|c cs IH]; intros s Hv; [done|].
  cbn [perform_all]. rewrite perform_eq, addTaskToQueue_busy by done.
  cbn [mbind option_bind]. by rewrite IH.
Qed.

Lemma invoke_busy cb a s :
  tasksProcessSubject s = false → invoke cb a s = Some (invoked cb a s).
Proof.
  intros Hv. destruct cb as [[n cs]|]; [|done].
  cbn [invoke invoked]. by apply perform_all_busy.
Qed.

Lemma push_all_started cs : ∀ s,
  started (log (push_all cs s)) = started (log s).
Proof.
  intros s. rewrite push_all_log. unfold started. rewrite omap_app.
  replace (omap _ (ObsPush <$> (task_of <$> cs))) with (@nil Task);
    [by rewrite app_nil_r|].
  induction cs as [|c cs IH]; [done|]. exact IH.
Qed.

Lemma invoked_queue cb a s :
  tasksQueue (invoked cb a s) = tasksQueue s ++ submits cb.
Proof.
  destruct cb as [[n cs]|]; cbn [invoked submits];
    [|by rewrite app_nil_r].
  by rewrite push_all_queue.
Qed.

Lemma invoked_started cb a s :
  started (log (invoked cb a s)) = started (log s).
Proof.
  destruct cb as [[n cs]|]; cbn [invoked]; [|done].
  rewrite push_all_started. fields. unfold started. rewrite omap_app.
  cbn. by rewrite app_nil_r.
Qed.

Lemma invoked_pending cb a s : pending (invoked cb a s) = pending s.
Proof.
  destruct cb as [[n cs]|]; cbn [invoked]; [|done].
  by destruct (push_all_frame cs (record (ObsCall n a) s)) as (_&_&_&->&_).
Qed.

Lemma next_true_settled s :
  Quiet s → is_Some (fs s) → requesting s = false →
  ∃ s', next true s = Some s' ∧ Good s' ∧
        settled (tasksQueue s) (started (log s)) s'.
Proof.
  intros Hq Hfs Hreq.
  destruct (next_true_Good s Hq Hfs Hreq) as (s' & E & Hg & _).
  exists s'. split_and!; [done..|].
  destruct Hq as [_ Hv Hp]. destruct Hfs as [h Hfs].
  destruct (tasksQueue s) as [|t q] eqn:Hqu; cbn [settled].
  - rewrite next_true_nil in E by done. injection E as <-. fields.
    split_and!; [done..|]. unfold started. rewrite !omap_app. cbn.
    by rewrite !app_nil_r.
  - erewrite next_true_cons in E by done. injection E as <-. fields.
    rewrite Hp. split_and!; [done..|]. unfold started. rewrite !omap_app.
    cbn. by rewrite !app_nil_r.
Qed.

Lemma call_then_signal_settled cb a s :
  Taken s →
  ∃ s', (invoke cb a s ≫= next true) = Some s' ∧ Good s' ∧
        settled (tasksQueue s ++ submits cb) (started (log s)) s'.
Proof.
  intros Ht. rewrite invoke_Quiet by apply Ht. cbn [mbind option_bind].
  pose proof (Taken_invoked cb a s Ht) as Ht'.
  destruct (Taken_env _ Ht') as [Hfs Hreq].
  destruct (next_true_settled _ (taken_quiet _ Ht') Hfs Hreq)
    as (s' & E & Hg & Hs).
  exists s'. rewrite invoked_queue, invoked_started in Hs. done.
Qed.

Lemma settled_busy q st s :
  Good s → settled q st s → q ≠ [] → tasksProcessSubject s = false.
Proof.
  intros [(m & _ & Hs & _) _ _] Hset Hq.
  destruct q as [|t q]; [done|]. destruct Hset as (Hp & _).
  destruct m; cbn [shape] in Hs.
  - tauto.
  - destruct Hs as (_ & Hp' & _). by rewrite Hp' in Hp.
  - done.
  - tauto.
Qed.

Lemma signal_then_call_settled cb a s :
  Taken s →
  ∃ s', (next true s ≫= invoke cb a) = Some s' ∧ Good s' ∧
        settled (tasksQueue s ++ submits cb) (started (log s)) s'.
Proof.
  intros Ht. destruct (Taken_env _ Ht) as [Hfs Hreq].
  destruct (next_true_settled _ (taken_quiet _ Ht) Hfs Hreq)
    as (s1 & E1 & Hg1 & Hs1).
  rewrite E1. cbn [mbind option_bind].
  destruct (invoke_Good cb a s1 Hg1) as (s2 & E2 & Hg2 & _).
  exists s2. split_and!; [done..|].
  destruct (tasksQueue s) as [|t q] eqn:Hqu.
  - (* the subject is left at true: the first thing the caller's function
       submits takes the fast path *)
    rewrite next_true_nil in E1 by done. injection E1 as <-.
    destruct cb as [[n [|c cs]]|]; cbn [invoke perform_all submits] in *.
    + injection E2 as <-. fields. destruct Hs1 as (Hp & _ & Hst).
      split_and!; [done..|]. fields. rewrite <-Hst.
      unfold started. rewrite !omap_app. cbn. by rewrite !app_nil_r.
    + destruct Hfs as [h Hfs].
      rewrite perform_eq in E2.
      erewrite addTaskToQueue_fast in E2; [|done|by fields|fields; exact Hfs].
      cbn [mbind option_bind] in E2.
      rewrite perform_all_busy in E2 by done. injection E2 as <-.
      cbn [app fmap list_fmap settled].
      destruct Hs1 as (Hp & _ & Hst). fields. 
      destruct (push_all_frame cs
        (begin (task_of c) (write_subject false (set_tasksQueue []
           (push (task_of c) (record (ObsCall n a) (write_subject true s)))))))
        as (_&_&_&Hpe&_).
      fields. rewrite Hpe, push_all_queue, push_all_started. fields.
      rewrite Hp. split_and!; [done..|]. rewrite <-Hst.
      unfold started. rewrite !omap_app. cbn. by rewrite !app_nil_r.
    + by injection E2 as <-.
  - cbn [app]. cbn [settled] in Hs1. destruct Hs1 as (Hp & Hq1 & Hst).
    assert (tasksProcessSubject s1 = false) as Hv1.
    { eapply (settled_busy (t :: q)); [done| |done]. by cbn [settled]. }
    rewrite invoke_busy in E2 by done. injection E2 as <-.
    cbn [settled]. by rewrite invoked_pending, invoked_queue, invoked_started,
      Hp, Hq1, Hst.
Qed.

(** ** One round: the browser answers the running task to its end *)

(** The invariant does not look at the disk. *)
Lemma Good_ext s s' :
  Good s →
  fs s' = fs s → tasksProcessSubject s' = tasksProcessSubject s →
  tasksQueue s' = tasksQueue s → requesting s' = requesting s →
  pending s' = pending s → log s' = log s →
  Good s'.
Proof.
  intros [(m & Hm & Hs & Hr) Hf Hp] E1 E2 E3 E4 E5 E6.
  split; rewrite ?E1, ?E2, ?E3, ?E4, ?E5, ?E6; try done.
  exists m. split_and!; try done.
  destruct m; cbn [shape] in *; rewrite ?E1, ?E2, ?E3, ?E4, ?E5, ?E6; done.
Qed.

Lemma Taken_ext s s' :
  Taken s →
  fs s' = fs s → tasksProcessSubject s' = tasksProcessSubject s →
  tasksQueue s' = tasksQueue s → requesting s' = requesting s →
  pending s' = pending s → log s' = log s →
  Taken s'.
Proof.
  intros [[Hg Hv Hp] Hm] E1 E2 E3 E4 E5 E6.
  split; [split|]; rewrite ?E2, ?E5, ?E6; try done.
  by eapply Good_ext.
Qed.

Lemma step_getFile s name create succ err :
  pending s = [getFile_call name create succ err] →
  step s (backend 0 true) =
  match disk s !! name with
  | Some _ => deliver (Some succ) (FileEntry name) (set_pending [] s)
  | None =>
      if create then
        deliver (Some succ) (FileEntry name)
          (set_disk (<[name := EmptyString]> (disk s)) (set_pending [] s))
      else NotEnabled
  end.
Proof. intros Hp. cbn [step]. by rewrite (complete_head _ _ _ Hp). Qed.

Lemma step_getFile_error s name create succ err :
  pending s = [getFile_call name create succ err] →
  step s (backend 0 false) = deliver err FileError (set_pending [] s).
Proof. intros Hp. cbn [step]. by rewrite (complete_head _ _ _ Hp). Qed.

Lemma step_file s name succ err content :
  pending s = [file_call name succ err] → disk s !! name = Some content →
  step s (backend 0 true) =
  deliver (Some succ) (File content) (set_pending [] s).
Proof.
  intros Hp Hd. cbn [step]. rewrite (complete_head _ _ _ Hp). cbv zeta.
  replace (disk (set_pending [] s)) with (disk s) by done. by rewrite Hd.
Qed.

Lemma step_readAsText s reader file :
  pending s = [readAsText_call reader file] →
  step s (backend 0 true) =
  deliver (onloadend reader) (ProgressEvent file) (set_pending [] s).
Proof. intros Hp. cbn [step]. by rewrite (complete_head _ _ _ Hp). Qed.

Lemma step_createWriter s name succ err content :
  pending s = [createWriter_call name succ err] →
  disk s !! name = Some content →
  step s (backend 0 true) =
  deliver (Some succ)
    (Writer {| writer_name := name; position := 0;
               writer_length := String.length content;
               onwriteend := None; onerror := None |}) (set_pending [] s).
Proof.
  intros Hp Hd. cbn [step]. rewrite (complete_head _ _ _ Hp). cbv zeta.
  replace (disk (set_pending [] s)) with (disk s) by done. by rewrite Hd.
Qed.

Lemma step_write s w blob content :
  pending s = [write_call w blob] →
  disk s !! writer_name w = Some content →
  step s (backend 0 true) =
  deliver (onwriteend w) (Writer w)
    (set_disk (<[writer_name w := write_at (position w) blob content]>
                 (disk s)) (set_pending [] s)).
Proof.
  intros Hp Hd. cbn [step]. rewrite (complete_head _ _ _ Hp). cbv zeta.
  replace (disk (set_pending [] s)) with (disk s) by done. by rewrite Hd.
Qed.

Lemma exec_cons s e es s1 :
  step s e = Done s1 → exec s (e :: es) = exec s1 es.
Proof. intros E. cbn [exec]. by rewrite E. Qed.

(** The two answers that finish a write or an append once the file is
    there. *)
Lemma round_writer s1 s0 name content c0 f g (append : bool) :
  Taken s0 →
  fs s1 = fs s0 → tasksProcessSubject s1 = tasksProcessSubject s0 →
  tasksQueue s1 = tasksQueue s0 → requesting s1 = requesting s0 →
  log s1 = log s0 →
  pending s1 = [createWriter_call name
                  (if append then appendToFile_writer content f g
                   else writeFile_writer content f g)
                  (Some (error_callback g))] →
  disk s1 !! name = Some c0 →
  ∃ s', exec s1 [backend 0 true; backend 0 true] = Done s' ∧
        Good s' ∧
        settled (tasksQueue s0 ++ submits f) (started (log s0)) s'.
Proof.
  intros Ht E1 E2 E3 E4 E6 Hp Hd. pose proof Ht as [[_ _ Hp0] _].
  set (w0 := {| writer_name := name; position := 0;
                writer_length := String.length c0;
                onwriteend := None; onerror := None |}).
  assert (∃ w h d,
    step s1 (backend 0 true) =
      Done (issue (write_call w content) (set_pending [] s1)) ∧
    writer_name w = name ∧ onwriteend w = Some h ∧
    (∀ s, apply h (Writer w) s =
          invoke f arg_none (set_disk (d (disk s)) s) ≫= next true))
    as (w & h & d & Hstep1 & Hwn & Hwe & Hh).
  { rewrite (step_createWriter _ _ _ _ _ Hp Hd). cbn [deliver].
    destruct append; cbn [apply lift install_and_write].
    - eexists _, _, (λ d, d). split_and!; [reflexivity|done|reflexivity|].
      intros s. cbn [apply]. by destruct s.
    - eexists _, _, (alter (truncate (String.length content)) name).
      split_and!; [reflexivity|done|reflexivity|].
      intros s. by cbn [apply]. }
  rewrite (exec_cons _ _ _ _ Hstep1).
  set (s2 := issue (write_call w content) (set_pending [] s1)).
  assert (step s2 (backend 0 true) =
          deliver (onwriteend w) (Writer w)
            (set_disk (<[writer_name w := write_at (position w) content c0]>
                         (disk s2)) (set_pending [] s2))) as Hstep2.
  { apply step_write; [done|]. by rewrite Hwn. }
  rewrite Hwe in Hstep2. cbn [deliver] in Hstep2. rewrite Hh in Hstep2.
  match type of Hstep2 with context [invoke f arg_none ?s3] =>
    destruct (call_then_signal_settled f arg_none s3) as (s' & E & Hg & Hs)
  end.
  { eapply Taken_ext; [exact Ht|try done..]. }
  rewrite E in Hstep2. cbn [lift] in Hstep2.
  exists s'. rewrite (exec_cons _ _ _ _ Hstep2). cbn [exec].
  split_and!; [done..|].
  revert Hs. subst s2. fields. by rewrite E3, E6.
Qed.

Lemma round_create s name content f g (append : bool) :
  Good s →
  pending s = [getFile_call name true
                 (if append then appendToFile_entry content f g
                  else writeFile_entry content f g)
                 (Some (error_callback g))] →
  ∃ s', exec s [backend 0 true; backend 0 true; backend 0 true] = Done s' ∧
        Good s' ∧
        settled (tasksQueue s ++ submits f) (started (log s)) s'.
Proof.
  intros Hg Hp. destruct (Good_taken_head s _ Hg Hp) as [Ht _].
  assert (∃ s1 c0,
    step s (backend 0 true) = Done s1 ∧
    fs s1 = fs s ∧ tasksProcessSubject s1 = tasksProcessSubject s ∧
    tasksQueue s1 = tasksQueue s ∧ requesting s1 = requesting s ∧
    log s1 = log s ∧
    pending s1 = [createWriter_call name
                    (if append then appendToFile_writer content f g
                     else writeFile_writer content f g)
                    (Some (error_callback g))] ∧
    disk s1 !! name = Some c0)
    as (s1 & c0 & Hstep & E1 & E2 & E3 & E4 & E6 & Hp1 & Hd1).
  { rewrite (step_getFile _ _ _ _ _ Hp).
    destruct (disk s !! name) as [c0|] eqn:Hd.
    - destruct append; cbn [deliver apply lift];
        eexists _, c0; (split; [reflexivity|]); by fields.
    - destruct append; cbn [deliver apply lift];
        eexists _, EmptyString; (split; [reflexivity|]); fields;
        split_and!; try done; apply lookup_insert_eq. }
  destruct (round_writer s1 (set_pending [] s) name content c0 f g append)
    as (s' & E & Hg' & Hs); try done.
  exists s'. rewrite (exec_cons _ _ _ _ Hstep). done.
Qed.

Lemma round s t :
  Good s → pending s = [first_request t] →
  ∃ es s' extra,
    Forall is_answer es ∧ exec s es = Done s' ∧ Good s' ∧
    settled (tasksQueue s ++ extra) (started (log s)) s'.
Proof.
  intros Hg Hp. destruct (Good_taken_head s _ Hg Hp) as [Ht _].
  destruct t as [name f g|name content f g|name content f g];
    cbn [first_request] in Hp.
  - destruct (disk s !! name) as [c|] eqn:Hd.
    + assert (step s (backend 0 true) =
              Done (issue (file_call name (readFile_file f) None)
                      (set_pending [] s))) as Hstep1.
      { rewrite (step_getFile _ _ _ _ _ Hp), Hd. done. }
      set (s1 := issue (file_call name (readFile_file f) None)
                   (set_pending [] s)) in *.
      assert (step s1 (backend 0 true) =
              Done (issue (readAsText_call
                             {| onloadend := Some (readFile_onloadend f) |} c)
                      (set_pending [] s1))) as Hstep2.
      { by rewrite (step_file s1 name (readFile_file f) None c). }
      set (s2 := issue (readAsText_call _ c) (set_pending [] s1)) in *.
      destruct (signal_then_call_settled f (arg_result c) (set_pending [] s2))
        as (s' & E & Hg' & Hs).
      { eapply Taken_ext; [exact Ht|done..]. }
      assert (step s2 (backend 0 true) = Done s') as Hstep3.
      { rewrite (step_readAsText s2 _ c) by done.
        cbn [onloadend deliver apply]. exact (f_equal lift E). }
      exists [backend 0 true; backend 0 true; backend 0 true], s', (submits f).
      split_and!; [by repeat constructor| |done..].
      by rewrite (exec_cons _ _ _ _ Hstep1), (exec_cons _ _ _ _ Hstep2),
        (exec_cons _ _ _ _ Hstep3).
    + destruct (call_then_signal_settled g arg_error (set_pending [] s) Ht)
        as (s' & E & Hg' & Hs).
      assert (step s (backend 0 false) = Done s') as Hstep.
      { rewrite (step_getFile_error _ _ _ _ _ Hp).
        cbn [deliver apply processError]. exact (f_equal lift E). }
      exists [backend 0 false], s', (submits g).
      split_and!; [by repeat constructor| |done..].
      by rewrite (exec_cons _ _ _ _ Hstep).
  - destruct (round_create s name content f g false Hg Hp) as (s' & E & ? & ?).
    exists [backend 0 true; backend 0 true; backend 0 true], s', (submits f).
    split_and!; [by repeat constructor|done..].
  - destruct (round_create s name content f g true Hg Hp) as (s' & E & ? & ?).
    exists [backend 0 true; backend 0 true; backend 0 true], s', (submits f).
    split_and!; [by repeat constructor|done..].
Qed.

(** Round after round, every task that waits gets its turn. *)
Lemma rounds ts : ∀ s t0 rest,
  Good s → pending s = [first_request t0] → tasksQueue s = ts ++ rest →
  ∃ es s',
    Forall is_answer es ∧ exec s es = Done s' ∧ Good s' ∧
    started (log s') = started (log s) ++ ts.
Proof.
  induction ts as [|t ts IH]; intros s t0 rest Hg Hp Hq.
  - exists [], s. split_and!; [by constructor|done..|by rewrite app_nil_r].
  - destruct (round s t0 Hg Hp) as (es1 & s1 & extra & Hes1 & E1 & Hg1 & Hs1).
    rewrite Hq in Hs1. cbn [app settled] in Hs1.
    destruct Hs1 as (Hp1 & Hq1 & Hst1).
    destruct (IH s1 t (rest ++ extra) Hg1 Hp1) as (es2 & s2 & Hes2 & E2 & Hg2 & Hst2).
    { by rewrite Hq1, <-app_assoc. }
    exists (es1 ++ es2), s2. split_and!; [by apply Forall_app|..|done|].
    + by rewrite exec_app, E1.
    + rewrite Hst2, Hst1, <-app_assoc. done.
Qed.

(** ** Every handler only adds to the log *)

Lemma invoke_log cb a s s' :
  invoke cb a s = Some s' → ∃ l, log s' = log s ++ l.
Proof.
  destruct cb as [[n cs]|]; cbn [invoke].
  - intros E. destruct (perform_all_log _ _ _ E) as [l El].
    exists (ObsCall n a :: l). rewrite El. fields. by rewrite <-app_assoc.
  - intros [= <-]. exists []. by rewrite app_nil_r.
Qed.

Lemma bind_log (f g : State → option State) s s' :
  (∀ s s', f s = Some s' → ∃ l, log s' = log s ++ l) →
  (∀ s s', g s = Some s' → ∃ l, log s' = log s ++ l) →
  (f s ≫= g) = Some s' → ∃ l, log s' = log s ++ l.
Proof.
  intros Hf Hg E. destruct (f s) as [s1|] eqn:E1; [|done]. cbn in E.
  destruct (Hf _ _ E1) as [l1 El1]. destruct (Hg _ _ E) as [l2 El2].
  exists (l1 ++ l2). by rewrite El2, El1, <-app_assoc.
Qed.

Lemma next_grows w s s' : next w s = Some s' → ∃ l, log s' = log s ++ l.
Proof. intros E. destruct (next_log _ _ _ E) as [l ->]. by eexists. Qed.

Lemma apply_log c v s s' :
  apply c v s = Some s' → ∃ l, log s' = log s ++ l.
Proof.
  assert (∀ s : State, ∃ l, log s = log s ++ l) as Hrefl
    by (intros s0; exists []; by rewrite app_nil_r).
  destruct c, v; cbn [apply]; try done;
    try (intros [= <-]; unfold install_and_write; fields; apply Hrefl);
    first
      [ apply bind_log; [apply next_grows|apply invoke_log]
      | apply bind_log; [apply invoke_log|apply next_grows]
      | unfold processError; apply bind_log;
          [apply invoke_log|apply next_grows]
      | apply invoke_log
      | intros E; eapply bind_log in E as [l El];
          [|apply invoke_log|apply next_grows];
        exists l; by rewrite El ].
Qed.

Lemma deliver_log h v s s' :
  deliver h v s = Done s' → ∃ l, log s' = log s ++ l.
Proof.
  destruct h as [c|]; cbn [deliver].
  - destruct (apply c v s) as [s1|] eqn:E; [|done]. intros [= <-].
    by eapply apply_log.
  - intros [= <-]. exists []. by rewrite app_nil_r.
Qed.

Lemma step_log s e s' : step s e = Done s' → ∃ l, log s' = log s ++ l.
Proof.
  destruct e as [c|ok|i ok]; cbn [step].
  - rewrite perform_eq.
    destruct (addTaskToQueue (task_of c) s) as [s1|] eqn:E; [|done].
    intros [= <-]. by eapply addTaskToQueue_log.
  - destruct (requesting s); [|done]. destruct ok.
    + unfold initFs.
      destruct (next true _) as [s1|] eqn:E; [|done]. intros [= <-].
      by apply next_grows in E.
    + intros [= <-]. exists []. by rewrite app_nil_r.
  - unfold complete. destruct (pending s !! i) as [p|]; [|done].
    destruct p, ok; unfold then_deliver; repeat case_match; try done;
      intros E; repeat match goal with
      | H : deliver _ _ _ = Done _ |- _ => apply deliver_log in H
      end; fields;
      repeat match goal with
      | H : ∃ l, _ |- _ => destruct H as [? H]
      end;
      try (eexists; eassumption).
    eexists. etrans; [eassumption|]. fields.
    match goal with H : log _ = _ |- _ => rewrite H end.
    by rewrite <-app_assoc.
Qed.

Lemma exec_log es : ∀ s s', exec s es = Done s' → ∃ l, log s' = log s ++ l.
Proof.
  induction es as [|e es IH]; intros s s'; cbn [exec].
  - intros [= <-]. exists []. by rewrite app_nil_r.
  - destruct (step s e) as [s1| |] eqn:E; [|done..]. intros E2.
    destruct (step_log _ _ _ E) as [l1 El1].
    destruct (IH _ _ E2) as [l2 El2].
    exists (l1 ++ l2). by rewrite El2, El1, <-app_assoc.
Qed.

(** ** Before the file system is granted *)

Lemma exec_callers_busy cs : ∀ s,
  tasksProcessSubject s = false →
  exec s (caller <$> cs) = Done (push_all cs s).
Proof.
  induction cs as [|c cs IH]; intros s Hv; [done|].
  cbn [fmap list_fmap exec step].
  rewrite perform_eq, addTaskToQueue_busy by done. cbn [lift].
  change (list_fmap _ _ caller cs) with (caller <$> cs).
  by rewrite IH.
Qed.

(** X12 (queueing before the file system is granted).  Calls made
    before the file system is granted leave their tasks in the queue, in
    order: the subject holds false, [fs] is undefined, no body has begun.
    When the browser grants the file system, [initFs] stores the handle and
    writes true over false, and the subscriber begins the first task.  From
    then on, in every run, the bodies begun followed by the tasks waiting
    are those tasks, in their order, followed by the ones submitted later;
    and there is a run of answers of the browser after which the bodies
    begun are exactly those tasks in submission order. *)
Theorem X12_pre_readiness_queueing files cs :
  ∃ s,
    exec (initial files) (caller <$> cs) = Done s ∧
    tasksQueue s = task_of <$> cs ∧
    started (log s) = [] ∧ tasksProcessSubject s = false ∧ fs s = None ∧
    ∃ s1,
      step s (requestFileSystem_result true) = Done s1 ∧
      fs s1 = Some domFileSystem ∧
      log s1 = log s ++ ObsNext false true :: ObsNotify true ::
               drain_log (task_of <$> cs) ∧
      (∀ es s2, exec s1 es = Done s2 →
         ∃ later,
           started (log s2) ++ tasksQueue s2 = (task_of <$> cs) ++ later) ∧
      ∃ es s2,
        Forall is_answer es ∧ exec s1 es = Done s2 ∧
        started (log s2) = task_of <$> cs.
Proof.
  set (s := push_all cs (initial files)).
  assert (exec (initial files) (caller <$> cs) = Done s) as Hex
    by (by apply exec_callers_busy).
  assert (reachable s) as Hr
    by (eapply exec_reachable; [apply reachable_initial|exact Hex]).
  pose proof (reachable_Good s Hr) as Hg.
  destruct (push_all_frame cs (initial files)) as (Hfs & Hreq & _ & Hp & Hv).
  fold s in Hfs, Hreq, Hp, Hv. cbn in Hfs, Hreq, Hp, Hv.
  assert (tasksQueue s = task_of <$> cs) as Hq
    by (subst s; by rewrite push_all_queue).
  assert (started (log s) = []) as Hst
    by (subst s; by rewrite push_all_started).
  assert (pushed (log s) = task_of <$> cs) as Hpu.
  { destruct Hg as [_ Hf _]. by rewrite Hf, Hst, Hq. }
  exists s. split_and!; [done..|].
  pose proof (Good_booted s Hg Hreq) as Hquiet.
  destruct (next_true_settled _ Hquiet) as (s1 & E1 & Hg1 & Hs1);
    [by eexists|done|].
  assert (step s (requestFileSystem_result true) = Done s1) as Hstep.
  { cbn [step]. rewrite Hreq. unfold initFs. by rewrite E1. }
  assert (reachable s1) as Hr1 by (by eapply reachable_step).
  exists s1. split_and!; [done| | | |].
  - destruct (next_true_Good _ Hquiet) as (s1' & E1' & _ & Hfs1 & _);
      [by eexists|done|].
    rewrite E1 in E1'. injection E1' as <-. by rewrite Hfs1.
  - rewrite (next_true_log (set_fs _ (set_requesting false s)) s1 Hv E1). fields. by rewrite Hq.
  - intros es s2 E2.
    assert (Good s2) as [_ Hf2 _]
      by (eapply reachable_Good, exec_reachable; [exact Hr1|exact E2]).
    destruct (exec_log _ _ _ E2) as [l2 El2].
    destruct (step_log _ _ _ Hstep) as [l1 El1].
    rewrite <-Hf2, El2, El1. unfold pushed. rewrite !omap_app.
    fold (pushed (log s)). rewrite Hpu, <-app_assoc. by eexists.
  - fields. rewrite Hq, Hst in Hs1.
    destruct (task_of <$> cs) as [|t0 ts] eqn:Hcs; cbn [settled] in Hs1.
    + exists [], s1. split_and!; [by constructor|done|tauto].
    + destruct Hs1 as (Hp1 & Hq1 & Hst1).
      destruct (rounds ts s1 t0 [] Hg1 Hp1) as (es & s2 & Hes & E2 & _ & Hst2);
        [by rewrite app_nil_r|].
      exists es, s2. split_and!; [done..|]. by rewrite Hst2, Hst1.
Qed.

Lemma X12_pre_readiness_queueing_witness :
  ∃ s,
    exec (initial ∅) (caller <$> [call_readFile "b.txt" None None]) = Done s ∧
    tasksQueue s = task_of <$> [call_readFile "b.txt" None None] ∧
    started (log s) = [] ∧ tasksProcessSubject s = false ∧ fs s = None.
Proof.
  destruct (X12_pre_readiness_queueing ∅ [call_readFile "b.txt" None None])
    as (s & H1 & H2 & H3 & H4 & H5 & _).
  by exists s.
Defined.

(** * Further properties of the code *)

(** ** What a handler adds to [called] *)

Lemma called_snoc l o :
  called (l ++ [o]) =
  called l ++ match o with ObsCall n a => [(n, a)] | _ => [] end.
Proof. unfold called. rewrite omap_app. by destruct o. Qed.

Lemma called_pushes ts : called (ObsPush <$> ts) = [].
Proof. induction ts as [|t ts IH]; [done|]. exact IH. Qed.

Lemma called_app l1 l2 : called (l1 ++ l2) = called l1 ++ called l2.
Proof. unfold called. by rewrite omap_app. Qed.

Lemma called_drain q : called (drain_log q) = [].
Proof. by destruct q. Qed.

Lemma addTaskToQueue_called t s s' :
  addTaskToQueue t s = Some s' → called (log s') = called (log s).
Proof.
  unfold addTaskToQueue. fields.
  destruct ((length (tasksQueue s ++ [t]) =? 1) && tasksProcessSubject s).
  - rewrite deQueueTask_eq. unfold deQueueTask_with. fields.
    destruct (tasksQueue s ++ [t]) as [|t0 q]; [done|].
    rewrite next_false. cbn [mbind option_bind]. unfold run. fields.
    case_match; [|done]. intros [= <-]. fields.
    rewrite !called_snoc. by rewrite !app_nil_r.
  - intros [= <-]. fields. rewrite called_snoc. by rewrite app_nil_r.
Qed.

Lemma perform_all_called cs : ∀ s s',
  perform_all cs s = Some s' → called (log s') = called (log s).
Proof.
  induction cs as [|c cs IH]; intros s s'; cbn [perform_all].
  - by intros [= <-].
  - rewrite perform_eq.
    destruct (addTaskToQueue (task_of c) s) as [s1|] eqn:E1; [|done]. cbn.
    intros E2. rewrite (IH _ _ E2). by eapply addTaskToQueue_called.
Qed.

Lemma invoke_called cb a s s' :
  invoke cb a s = Some s' → called (log s') = called (log s) ++ entries cb a.
Proof.
  destruct cb as [[n cs]|]; cbn [invoke entries].
  - intros E. rewrite (perform_all_called _ _ _ E). fields.
    by rewrite called_snoc.
  - intros [= <-]. by rewrite app_nil_r.
Qed.

Lemma next_true_called s s' :
  tasksProcessSubject s = false → next true s = Some s' →
  called (log s') = called (log s).
Proof.
  intros Hv E. rewrite (next_true_log _ _ Hv E).
  rewrite called_app. change (called (_ :: _ :: drain_log ?q))
    with (called (drain_log q)).
  by rewrite called_drain, app_nil_r.
Qed.

(** ** Completions, in full *)

Lemma call_then_signal_full cb a s :
  Taken s →
  ∃ s', (invoke cb a s ≫= next true) = Some s' ∧ Good s' ∧
        settled (tasksQueue s ++ submits cb) (started (log s)) s' ∧
        disk s' = disk s ∧
        called (log s') = called (log s) ++ entries cb a ∧
        (tasksQueue s ++ submits cb = [] → tasksProcessSubject s' = true).
Proof.
  intros Ht.
  destruct (call_then_signal_settled cb a s Ht) as (s' & E & Hg & Hs).
  exists s'. split_and!; [done..| | |].
  - rewrite invoke_Quiet in E by apply Ht. cbn [mbind option_bind] in E.
    pose proof (Taken_invoked cb a s Ht) as Ht'.
    destruct (Taken_env _ Ht') as [Hfs Hreq].
    destruct (next_true_Good _ (taken_quiet _ Ht') Hfs Hreq)
      as (s'' & E' & _ & _ & _ & Hd).
    rewrite E in E'. injection E' as <-. rewrite Hd.
    by destruct (invoked_frame cb a s) as (_ & _ & ->).
  - destruct (invoke cb a s) as [s1|] eqn:E1; [|done].
    cbn [mbind option_bind] in E.
    pose proof E1 as E1'. rewrite invoke_Quiet in E1' by apply Ht.
    injection E1' as <-.
    rewrite (next_true_called _ _ (quiet_subject _ (invoked_Quiet cb a s
               (taken_quiet _ Ht))) E).
    by apply invoke_called.
  - intros Hq. rewrite invoke_Quiet in E by apply Ht.
    cbn [mbind option_bind] in E.
    rewrite next_true_nil in E by (by rewrite invoked_queue).
    by injection E as <-.
Qed.

Lemma signal_then_call_full cb a s :
  Taken s →
  ∃ s', (next true s ≫= invoke cb a) = Some s' ∧ Good s' ∧
        settled (tasksQueue s ++ submits cb) (started (log s)) s' ∧
        disk s' = disk s ∧
        called (log s') = called (log s) ++ entries cb a ∧
        (tasksQueue s ++ submits cb = [] → tasksProcessSubject s' = true).
Proof.
  intros Ht.
  destruct (signal_then_call_settled cb a s Ht) as (s' & E & Hg & Hs).
  exists s'. split_and!; [done..| | |];
    destruct (Taken_env _ Ht) as [Hfs Hreq];
    destruct (next_true_Good _ (taken_quiet _ Ht) Hfs Hreq)
      as (s1 & E1 & Hg1 & _ & _ & Hd1);
    rewrite E1 in E; cbn [mbind option_bind] in E.
  - destruct (invoke_Good cb a s1 Hg1) as (s2 & E2 & _ & _ & _ & Hd2).
    rewrite E in E2. injection E2 as <-. by rewrite Hd2.
  - rewrite (invoke_called _ _ _ _ E).
    by rewrite (next_true_called _ _ (quiet_subject _ (taken_quiet _ Ht)) E1).
  - intros Hq. apply app_eq_nil in Hq as [Hq Hsub].
    rewrite next_true_nil in E1 by done. injection E1 as <-.
    destruct cb as [[n [|c cs]]|]; cbn [invoke perform_all submits] in *;
      [|done|]; by injection E as <-.
Qed.

Lemma writes_snoc l o :
  writes (l ++ [o]) =
  writes l ++ match o with ObsNext b v => [(b, v)] | _ => [] end.
Proof. unfold writes. rewrite omap_app. by destruct o. Qed.

Lemma push_all_writes cs s : writes (log (push_all cs s)) = writes (log s).
Proof.
  rewrite push_all_log. unfold writes. rewrite omap_app.
  replace (omap _ (ObsPush <$> (task_of <$> cs))) with (@nil (bool * bool));
    [by rewrite app_nil_r|].
  induction cs as [|c cs IH]; [done|]. exact IH.
Qed.

Lemma invoked_writes cb a s : writes (log (invoked cb a s)) = writes (log s).
Proof.
  destruct cb as [[n cs]|]; cbn [invoked]; [|done].
  rewrite push_all_writes. fields. rewrite writes_snoc. by rewrite app_nil_r.
Qed.

Lemma invoked_called cb a s :
  called (log (invoked cb a s)) = called (log s) ++ entries cb a.
Proof.
  destruct cb as [[n cs]|]; cbn [invoked entries]; [|by rewrite app_nil_r].
  rewrite push_all_log, called_app, called_pushes, app_nil_r. fields.
  by rewrite called_snoc.
Qed.

(** ** Rounds, with what they do to the disk *)

Lemma read_round s name f g content :
  Good s → pending s = [first_request (readFile_task name f g)] →
  disk s !! name = Some content →
  ∃ s', exec s three_answers = Done s' ∧ Good s' ∧
        settled (tasksQueue s ++ submits f) (started (log s)) s' ∧
        disk s' = disk s ∧
        called (log s') = called (log s) ++ entries f (arg_result content) ∧
        (tasksQueue s ++ submits f = [] → tasksProcessSubject s' = true).
Proof.
  intros Hg Hp Hd. destruct (Good_taken_head s _ Hg Hp) as [Ht _].
  cbn [first_request] in Hp.
  assert (step s (backend 0 true) =
          Done (issue (file_call name (readFile_file f) None)
                  (set_pending [] s))) as Hstep1.
  { rewrite (step_getFile _ _ _ _ _ Hp), Hd. done. }
  set (s1 := issue (file_call name (readFile_file f) None)
               (set_pending [] s)) in *.
  assert (step s1 (backend 0 true) =
          Done (issue (readAsText_call
                         {| onloadend := Some (readFile_onloadend f) |} content)
                  (set_pending [] s1))) as Hstep2.
  { by rewrite (step_file s1 name (readFile_file f) None content). }
  set (s2 := issue (readAsText_call _ content) (set_pending [] s1)) in *.
  destruct (signal_then_call_full f (arg_result content) (set_pending [] s2))
    as (s' & E & Hg' & Hs & Hdisk & Hcalled & Hsub).
  { eapply Taken_ext; [exact Ht|done..]. }
  assert (step s2 (backend 0 true) = Done s') as Hstep3.
  { rewrite (step_readAsText s2 _ content) by done.
    cbn [onloadend deliver apply]. exact (f_equal lift E). }
  exists s'. split_and!; try done.
  unfold three_answers.
  by rewrite (exec_cons _ _ _ _ Hstep1), (exec_cons _ _ _ _ Hstep2),
    (exec_cons _ _ _ _ Hstep3).
Qed.

Lemma writer_round s1 s0 name content c0 f g (append : bool) :
  Taken s0 →
  fs s1 = fs s0 → tasksProcessSubject s1 = tasksProcessSubject s0 →
  tasksQueue s1 = tasksQueue s0 → requesting s1 = requesting s0 →
  log s1 = log s0 →
  pending s1 = [createWriter_call name
                  (if append then appendToFile_writer content f g
                   else writeFile_writer content f g)
                  (Some (error_callback g))] →
  disk s1 !! name = Some c0 →
  ∃ s', exec s1 [backend 0 true; backend 0 true] = Done s' ∧
        Good s' ∧
        settled (tasksQueue s0 ++ submits f) (started (log s0)) s' ∧
        called (log s') = called (log s0) ++ entries f arg_none ∧
        (tasksQueue s0 ++ submits f = [] → tasksProcessSubject s' = true) ∧
        disk s' !! name =
          Some (if append then c0 +:+ content else content) ∧
        (∀ other, other ≠ name → disk s' !! other = disk s1 !! other).
Proof.
  intros Ht E1 E2 E3 E4 E6 Hp Hd.
  set (w0 := {| writer_name := name; position := 0;
                writer_length := String.length c0;
                onwriteend := None; onerror := None |}).
  assert (∃ w h d,
    step s1 (backend 0 true) =
      Done (issue (write_call w content) (set_pending [] s1)) ∧
    writer_name w = name ∧ onwriteend w = Some h ∧
    (∀ s, apply h (Writer w) s =
          invoke f arg_none (set_disk (d (disk s)) s) ≫= next true) ∧
    d (<[name := write_at (position w) content c0]> (disk s1)) !! name =
      Some (if append then c0 +:+ content else content) ∧
    (∀ other, other ≠ name →
       d (<[name := write_at (position w) content c0]> (disk s1)) !! other =
       disk s1 !! other))
    as (w & h & d & Hstep1 & Hwn & Hwe & Hh & Hdn & Hdo).
  { rewrite (step_createWriter _ _ _ _ _ Hp Hd). cbn [deliver].
    destruct append; cbn [apply lift install_and_write].
    - eexists _, _, (λ d, d). split_and!; [reflexivity|done|reflexivity| | |].
      + intros s. cbn [apply]. by destruct s.
      + cbn [position seek writer_length set_onwriteend set_onerror].
        rewrite Nat.min_id, append_exact. apply lookup_insert_eq.
      + intros other Hne. by apply lookup_insert_ne.
    - eexists _, _, (alter (truncate (String.length content)) name).
      split_and!; [reflexivity|done|reflexivity| | |].
      + intros s. by cbn [apply].
      + cbn [position set_onwriteend set_onerror].
        rewrite lookup_alter_eq, lookup_insert_eq. cbn.
        by rewrite overwrite_exact.
      + intros other Hne.
        by rewrite lookup_alter_ne, lookup_insert_ne. }
  rewrite (exec_cons _ _ _ _ Hstep1).
  set (s2 := issue (write_call w content) (set_pending [] s1)).
  assert (step s2 (backend 0 true) =
          deliver (onwriteend w) (Writer w)
            (set_disk (<[writer_name w := write_at (position w) content c0]>
                         (disk s2)) (set_pending [] s2))) as Hstep2.
  { apply step_write; [done|]. by rewrite Hwn. }
  rewrite Hwe in Hstep2. cbn [deliver] in Hstep2. rewrite Hh in Hstep2.
  match type of Hstep2 with context [invoke f arg_none ?s3] =>
    destruct (call_then_signal_full f arg_none s3)
      as (s' & E & Hg & Hs & Hdisk & Hcalled & Hsub)
  end.
  { pose proof Ht as [[_ _ Hp0] _]. eapply Taken_ext; [exact Ht|done..]. }
  rewrite E in Hstep2. cbn [lift] in Hstep2.
  exists s'. rewrite (exec_cons _ _ _ _ Hstep2). cbn [exec].
  split_and!; [done|done|..].
  - revert Hs. subst s2. fields. by rewrite E3, E6.
  - revert Hcalled. subst s2. fields. by rewrite E6.
  - revert Hsub. subst s2. fields. by rewrite E3.
  - rewrite Hdisk. subst s2. fields. rewrite Hwn. exact Hdn.
  - intros other Hne. rewrite Hdisk. subst s2. fields. rewrite Hwn.
    by apply Hdo.
Qed.

Lemma create_round s name content f g (append : bool) :
  Good s →
  pending s = [getFile_call name true
                 (if append then appendToFile_entry content f g
                  else writeFile_entry content f g)
                 (Some (error_callback g))] →
  ∃ s', exec s three_answers = Done s' ∧ Good s' ∧
        settled (tasksQueue s ++ submits f) (started (log s)) s' ∧
        called (log s') = called (log s) ++ entries f arg_none ∧
        (tasksQueue s ++ submits f = [] → tasksProcessSubject s' = true) ∧
        disk s' !! name =
          Some (if append
                then default EmptyString (disk s !! name) +:+ content
                else content) ∧
        (∀ other, other ≠ name → disk s' !! other = disk s !! other).
Proof.
  intros Hg Hp. destruct (Good_taken_head s _ Hg Hp) as [Ht _].
  assert (∃ s1,
    step s (backend 0 true) = Done s1 ∧
    fs s1 = fs s ∧ tasksProcessSubject s1 = tasksProcessSubject s ∧
    tasksQueue s1 = tasksQueue s ∧ requesting s1 = requesting s ∧
    log s1 = log s ∧
    pending s1 = [createWriter_call name
                    (if append then appendToFile_writer content f g
                     else writeFile_writer content f g)
                    (Some (error_callback g))] ∧
    disk s1 !! name = Some (default EmptyString (disk s !! name)) ∧
    (∀ other, other ≠ name → disk s1 !! other = disk s !! other))
    as (s1 & Hstep & E1 & E2 & E3 & E4 & E6 & Hp1 & Hd1 & Hdo1).
  { rewrite (step_getFile _ _ _ _ _ Hp).
    destruct (disk s !! name) as [c0|] eqn:Hd.
    - destruct append; cbn [deliver apply lift];
        eexists; (split; [reflexivity|]); fields; by rewrite Hd.
    - destruct append; cbn [deliver apply lift];
        eexists; (split; [reflexivity|]); fields;
        (split_and!; try done; [apply lookup_insert_eq|]);
        intros other Hne; by apply lookup_insert_ne. }
  destruct (writer_round s1 (set_pending [] s) name content _ f g append
              Ht E1 E2 E3 E4 E6 Hp1 Hd1)
    as (s' & E & Hg' & Hs & Hc & Hsub & Hdn & Hdo).
  exists s'. unfold three_answers. rewrite (exec_cons _ _ _ _ Hstep).
  split_and!; try done.
  intros other Hne. rewrite Hdo by done. by apply Hdo1.
Qed.

(** A call on a ready FileHandler begins its task at once. *)
Lemma idle_call s c :
  Good s → tasksProcessSubject s = true →
  ∃ s1, step s (caller c) = Done s1 ∧ Good s1 ∧
        pending s1 = [first_request (task_of c)] ∧ tasksQueue s1 = [] ∧
        disk s1 = disk s ∧ called (log s1) = called (log s) ∧
        started (log s1) = started (log s) ++ [task_of c].
Proof.
  intros Hg Hv. pose proof Hg as [(m & Hm & Hs & _) _ _].
  destruct m; cbn [shape] in Hs;
    [destruct Hs; congruence| |done|destruct Hs; congruence].
  destruct Hs as (_ & Hp & Hq & [h Hfs]).
  cbn [step]. rewrite perform_eq.
  rewrite (addTaskToQueue_fast _ _ h) by done. cbn [lift].
  eexists. split; [reflexivity|].
  split; [by apply Good_fast|]. fields. rewrite Hp.
  split_and!; try done.
  - rewrite !called_snoc. by rewrite !app_nil_r.
  - rewrite !started_snoc. by rewrite !app_nil_r.
Qed.

Lemma step_createWriter_error s name succ err :
  pending s = [createWriter_call name succ err] →
  step s (backend 0 false) = deliver err FileError (set_pending [] s).
Proof. intros Hp. cbn [step]. by rewrite (complete_head _ _ _ Hp). Qed.

Lemma step_file_error s name succ err :
  pending s = [file_call name succ err] →
  step s (backend 0 false) = deliver err FileError (set_pending [] s).
Proof. intros Hp. cbn [step]. by rewrite (complete_head _ _ _ Hp). Qed.

Lemma step_write_error s w blob :
  pending s = [write_call w blob] →
  step s (backend 0 false) =
  then_deliver (deliver (onerror w) FileError (set_pending [] s))
    (onwriteend w) (Writer w).
Proof. intros Hp. cbn [step]. by rewrite (complete_head _ _ _ Hp). Qed.

Lemma call_then_signal_writes cb a s s' :
  Taken s → (invoke cb a s ≫= next true) = Some s' →
  ∃ l, writes (log s') = writes (log s) ++ (false, true) :: l.
Proof.
  intros Ht E. rewrite invoke_Quiet in E by apply Ht.
  cbn [mbind option_bind] in E.
  rewrite (next_true_log _ _ (quiet_subject _ (invoked_Quiet cb a s
             (taken_quiet _ Ht))) E).
  unfold writes at 1. rewrite omap_app. fold (writes (log (invoked cb a s))).
  rewrite invoked_writes. cbn [omap]. by eexists.
Qed.

(** A write that fails: [error], then [writeend]. *)
Lemma failed_write s w blob :
  Good s → pending s = [write_call w blob] →
  ∃ g f,
    onerror w = caller_function <$> g ∧
    (onwriteend w = Some (appendToFile_onwriteend f) ∨
     ∃ content, onwriteend w = Some (writeFile_onwriteend content f)) ∧
    ∃ s', step s (backend 0 false) = Done s' ∧ Good s' ∧
          called (log s') =
            called (log s) ++ entries g arg_error ++ entries f arg_none ∧
          (∃ l, writes (log s') = writes (log s) ++ (false, true) :: l) ∧
          settled (tasksQueue s ++ submits g ++ submits f)
            (started (log s)) s'.
Proof.
  intros Hg Hp. destruct (Good_taken_head s _ Hg Hp) as [Ht Hwf].
  assert (∃ g f h d,
    onerror w = caller_function <$> g ∧ onwriteend w = Some h ∧
    (h = appendToFile_onwriteend f ∨
     ∃ content, h = writeFile_onwriteend content f) ∧
    (∀ s, apply h (Writer w) s =
          invoke f arg_none (set_disk (d (disk s)) s) ≫= next true))
    as (g & f & h & d & Hon & Hend & Hh & Happ).
  { inversion Hwf as [t Ht0| | | | |w0 b c f g|w0 b f g].
    - by destruct t.
    - eexists g, f, _, (alter (truncate (String.length c)) (writer_name w0)).
      split_and!; [done|done|right; by eexists|]. intros s0. by cbn [apply].
    - eexists g, f, _, (λ d, d).
      split_and!; [done|done|by left|]. intros s0. cbn [apply].
      by destruct s0. }
  exists g, f. split; [done|]. split.
  { destruct Hh as [->|[content ->]]; [by left|right; by eexists]. }
  pose proof (Taken_invoked g arg_error _ Ht) as Ht1.
  pose proof (Taken_set_disk (d (disk (invoked g arg_error (set_pending [] s))))
                _ Ht1) as Ht2.
  destruct (call_then_signal_full f arg_none _ Ht2)
    as (s' & E & Hg' & Hs & _ & Hc & _).
  destruct (call_then_signal_writes f arg_none _ s' Ht2 E) as [l Hw].
  exists s'. split_and!; try done.
  - rewrite (step_write_error _ _ _ Hp), Hon, Hend.
    rewrite (deliver_onerror g _ Ht). cbn [then_deliver deliver].
    rewrite Happ. exact (f_equal lift E).
  - rewrite Hc. fields. by rewrite invoked_called, <-app_assoc.
  - exists l. rewrite Hw. fields. by rewrite invoked_writes.
  - revert Hs. fields. by rewrite invoked_queue, invoked_started, <-app_assoc.
Qed.

Ltac run_from_fresh es :=
  apply (exec_reachable (initial ∅) es);
  [apply reachable_initial|vm_compute; reflexivity].

(** X1 (getFile fails).  When the browser reports that [getFile] of the
    running task failed, [processError] calls the task's error function,
    if it was given, once and with the error; no file changes; the subject
    is written true, so the first of the tasks waiting (those in the queue,
    then those the error function submitted) begins in the same handler,
    or the FileHandler is left with nothing to do. *)
Theorem X1_getFile_failure s t :
  reachable s → pending s = [first_request t] →
  ∃ s', step s (backend 0 false) = Done s' ∧
        called (log s') = called (log s) ++ entries (onError_of t) arg_error ∧
        disk s' = disk s ∧
        settled (tasksQueue s ++ submits (onError_of t)) (started (log s)) s'.
Proof.
  intros Hr Hp. pose proof (reachable_Good s Hr) as Hg.
  destruct (Good_taken_head s _ Hg Hp) as [Ht _].
  destruct (call_then_signal_full (onError_of t) arg_error _ Ht)
    as (s' & E & _ & Hs & Hd & Hc & _).
  exists s'. split_and!; try done.
  destruct t; cbn [first_request onError_of] in *;
    rewrite (step_getFile_error _ _ _ _ _ Hp);
    cbn [deliver apply processError]; exact (f_equal lift E).
Qed.

Lemma X1_getFile_failure_witness :
  reachable (state_after scenario_A) ∧
  ∃ s', step (state_after scenario_A) (backend 0 false) = Done s' ∧
        started (log s') =
          started (log (state_after scenario_A)) ++
          [readFile_task "a.txt" (Some (UserFunction 1 [])) None].
Proof.
  assert (reachable (state_after scenario_A)) as Hr
    by run_from_fresh scenario_A.
  split; [exact Hr|].
  destruct (X1_getFile_failure (state_after scenario_A)
              (writeFile_task "a.txt" "hello" None None) Hr)
    as (s' & E & _ & _ & Hs); [vm_compute; reflexivity|].
  exists s'. split; [exact E|]. apply Hs.
Defined.

(** X2 (createWriter fails).  A request for a writer is always made with
    the error callback of lines 95-97 / 133-135.  When the browser reports
    that it failed, the task's error function is called once with the
    error, no file changes beyond the file [getFile] may have created, and
    the first of the tasks waiting begins. *)
Theorem X2_createWriter_failure s name succ err :
  reachable s → pending s = [createWriter_call name succ err] →
  ∃ content f g,
    (succ = writeFile_writer content f g ∨
     succ = appendToFile_writer content f g) ∧
    err = Some (error_callback g) ∧
    ∃ s', step s (backend 0 false) = Done s' ∧
          called (log s') = called (log s) ++ entries g arg_error ∧
          disk s' = disk s ∧
          settled (tasksQueue s ++ submits g) (started (log s)) s'.
Proof.
  intros Hr Hp. pose proof (reachable_Good s Hr) as Hg.
  destruct (Good_taken_head s _ Hg Hp) as [Ht Hwf].
  assert (∃ content f g,
    (succ = writeFile_writer content f g ∨
     succ = appendToFile_writer content f g) ∧
    err = Some (error_callback g)) as (content & f & g & Hsucc & ->).
  { inversion Hwf as [t Ht0| | |n c f g|n c f g| |].
    - by destruct t.
    - exists c, f, g. split; [by left|done].
    - exists c, f, g. split; [by right|done]. }
  exists content, f, g. split_and!; [done..|].
  destruct (call_then_signal_full g arg_error _ Ht)
    as (s' & E & _ & Hs & Hd & Hc & _).
  exists s'. split_and!; try done.
  rewrite (step_createWriter_error _ _ _ _ Hp).
  cbn [deliver apply processError]. exact (f_equal lift E).
Qed.

Lemma X2_createWriter_failure_witness :
  reachable (state_after scenario_writer_wanted) ∧
  ∃ s', step (state_after scenario_writer_wanted) (backend 0 false) = Done s' ∧
        disk s' = disk (state_after scenario_writer_wanted).
Proof.
  assert (reachable (state_after scenario_writer_wanted)) as Hr
    by run_from_fresh scenario_writer_wanted.
  split; [exact Hr|].
  destruct (X2_createWriter_failure (state_after scenario_writer_wanted)
              "a.txt" (writeFile_writer "hello" None None)
              (Some (error_callback None)) Hr)
    as (_ & _ & _ & _ & _ & s' & E & _ & Hd & _); [vm_compute; reflexivity|].
  by exists s'.
Defined.

(** X3 (the FileWriter reports an error).  Whenever a write is
    outstanding, the handler on the writer's [onerror] is the caller's
    error function itself, or none when the caller gave none: never the
    handler of lines 88-91 / 126-129; and [onwriteend] holds the handler of
    lines 80-86 or 120-124.  When the write fails the writer fires [error]
    and then [writeend]: the error function is called once with the error,
    and then the [writeend] handler runs as it does after a success: the
    success function is called too, without argument, the subject is
    written true over false, and the first of the tasks waiting begins. *)
Theorem X3_writer_error s w blob :
  reachable s → pending s = [write_call w blob] →
  ∃ g f,
    onerror w = caller_function <$> g ∧
    (onwriteend w = Some (appendToFile_onwriteend f) ∨
     ∃ content, onwriteend w = Some (writeFile_onwriteend content f)) ∧
    ∃ s', step s (backend 0 false) = Done s' ∧
          called (log s') =
            called (log s) ++ entries g arg_error ++ entries f arg_none ∧
          (∃ l, writes (log s') = writes (log s) ++ (false, true) :: l) ∧
          settled (tasksQueue s ++ submits g ++ submits f)
            (started (log s)) s'.
Proof.
  intros Hr Hp. pose proof (reachable_Good s Hr) as Hg.
  destruct (Good_taken_head s _ Hg Hp) as [Ht Hwf].
  destruct (failed_write _ _ _ Hg Hp)
    as (g & f & Hon & Hend & s' & E & _ & Hc & Hw & Hs).
  exists g, f. split_and!; [done..|]. by exists s'.
Qed.

Lemma X3_writer_error_witness :
  reachable (state_after (take 5 scenario_C)) ∧
  ∃ s', step (state_after (take 5 scenario_C)) (backend 0 false) = Done s' ∧
        called (log s') = [(2, arg_error); (1, arg_none)].
Proof.
  assert (reachable (state_after (take 5 scenario_C))) as Hr
    by run_from_fresh (take 5 scenario_C).
  split; [exact Hr|].
  destruct (X3_writer_error (state_after (take 5 scenario_C))
              {| writer_name := "c.txt"; position := 0; writer_length := 0;
                 onwriteend := Some (writeFile_onwriteend "X"
                                       (Some (UserFunction 1 [])));
                 onerror := Some (caller_function (UserFunction 2 [])) |}
              "X" Hr)
    as (g & f & Hon & Hend & s' & E & Hc & _); [vm_compute; reflexivity|].
  exists s'. split; [exact E|].
  destruct g as [[n cs]|]; [|discriminate Hon].
  injection Hon as <- <-.
  destruct Hend as [Hend|[content Hend]]; [discriminate Hend|].
  injection Hend as _ <-. exact Hc.
Defined.

(** X4 (writeFile overwrites).  When the browser answers the three
    requests of a write that has just begun with success, the file holds
    exactly the content given, whatever it held before and whether or not
    it existed; no other file changes; the success function, if given, is
    called once without argument; and the first of the tasks waiting
    begins. *)
Theorem X4_writeFile_overwrites s name content f g :
  reachable s →
  pending s = [first_request (writeFile_task name content f g)] →
  ∃ s', exec s three_answers = Done s' ∧
        disk s' !! name = Some content ∧
        (∀ other, other ≠ name → disk s' !! other = disk s !! other) ∧
        called (log s') = called (log s) ++ entries f arg_none ∧
        settled (tasksQueue s ++ submits f) (started (log s)) s'.
Proof.
  intros Hr Hp. pose proof (reachable_Good s Hr) as Hg.
  destruct (create_round s name content f g false Hg Hp)
    as (s' & E & _ & Hs & Hc & _ & Hdn & Hdo).
  by exists s'.
Qed.

Lemma X4_writeFile_overwrites_witness :
  reachable (state_after scenario_A) ∧
  ∃ s', exec (state_after scenario_A) three_answers = Done s' ∧
        disk s' !! "a.txt" = Some "hello"%string.
Proof.
  assert (reachable (state_after scenario_A)) as Hr
    by run_from_fresh scenario_A.
  split; [exact Hr|].
  destruct (X4_writeFile_overwrites (state_after scenario_A)
              "a.txt" "hello" None None Hr)
    as (s' & E & Hd & _); [vm_compute; reflexivity|].
  by exists s'.
Defined.

(** X5 (appendToFile appends).  When the browser answers the three
    requests of an append that has just begun with success, the file holds
    what it held before (nothing, if it did not exist) followed by the
    content given; no other file changes; the success function, if given,
    is called once without argument; and the first of the tasks waiting
    begins. *)
Theorem X5_appendToFile_appends s name content f g :
  reachable s →
  pending s = [first_request (appendToFile_task name content f g)] →
  ∃ s', exec s three_answers = Done s' ∧
        disk s' !! name =
          Some (default EmptyString (disk s !! name) +:+ content) ∧
        (∀ other, other ≠ name → disk s' !! other = disk s !! other) ∧
        called (log s') = called (log s) ++ entries f arg_none ∧
        settled (tasksQueue s ++ submits f) (started (log s)) s'.
Proof.
  intros Hr Hp. pose proof (reachable_Good s Hr) as Hg.
  destruct (create_round s name content f g true Hg Hp)
    as (s' & E & _ & Hs & Hc & _ & Hdn & Hdo).
  by exists s'.
Qed.

Lemma X5_appendToFile_appends_witness :
  reachable (state_after scenario_append_start) ∧
  ∃ s', exec (state_after scenario_append_start) three_answers = Done s' ∧
        disk s' !! "a.txt" = Some "x"%string ∧
        called (log s') = [(5, arg_none)].
Proof.
  assert (reachable (state_after scenario_append_start)) as Hr
    by run_from_fresh scenario_append_start.
  split; [exact Hr|].
  destruct (X5_appendToFile_appends (state_after scenario_append_start)
              "a.txt" "x" (Some (UserFunction 5 [])) (Some (UserFunction 6 []))
              Hr)
    as (s' & E & Hd & _ & Hc & _); [vm_compute; reflexivity|].
  by exists s'.
Defined.

(** X6 (readFile reads).  When the file exists and the browser answers
    the three requests of a read that has just begun with success, the
    success function, if given, is called once with the content of the
    file; no file changes; and the first of the tasks waiting begins. *)
Theorem X6_readFile_reads s name f g content :
  reachable s →
  pending s = [first_request (readFile_task name f g)] →
  disk s !! name = Some content →
  ∃ s', exec s three_answers = Done s' ∧
        called (log s') = called (log s) ++ entries f (arg_result content) ∧
        disk s' = disk s ∧
        settled (tasksQueue s ++ submits f) (started (log s)) s'.
Proof.
  intros Hr Hp Hd. pose proof (reachable_Good s Hr) as Hg.
  destruct (read_round s name f g content Hg Hp Hd)
    as (s' & E & _ & Hs & Hdisk & Hc & _).
  by exists s'.
Qed.

Lemma X6_readFile_reads_witness :
  reachable (state_after scenario_read_start) ∧
  ∃ s', exec (state_after scenario_read_start) three_answers = Done s' ∧
        called (log s') = [(1, arg_result "hello")] ∧
        started (log s') =
          started (log (state_after scenario_read_start)) ++
          [writeFile_task "a.txt" "bye" None None].
Proof.
  assert (reachable (state_after scenario_read_start)) as Hr
    by run_from_fresh scenario_read_start.
  split; [exact Hr|].
  destruct (X6_readFile_reads (state_after scenario_read_start)
              "a.txt" (Some (UserFunction 1 [])) (Some (UserFunction 2 []))
              "hello" Hr)
    as (s' & E & Hc & _ & Hs); [vm_compute; reflexivity..|].
  exists s'. split_and!; [exact E|exact Hc|apply Hs].
Defined.

(** X7 (write, then read).  On a ready FileHandler, a write followed by
    a read of the same file, each answered with success, calls the read's
    success function exactly once, with the content written, whatever the
    file held before. *)
Theorem X7_write_then_read s name content n cs g :
  reachable s → tasksProcessSubject s = true →
  ∃ s', exec s
          (caller (call_writeFile name content None None) :: three_answers ++
           caller (call_readFile name (Some (UserFunction n cs)) g) ::
           three_answers) = Done s' ∧
        called (log s') = called (log s) ++ [(n, arg_result content)].
Proof.
  intros Hr Hv. pose proof (reachable_Good s Hr) as Hg.
  destruct (idle_call s (call_writeFile name content None None) Hg Hv)
    as (s1 & E1 & Hg1 & Hp1 & Hq1 & _ & Hc1 & _).
  destruct (create_round s1 name content None None false Hg1 Hp1)
    as (s2 & E2 & Hg2 & _ & Hc2 & Hv2 & Hd2 & _).
  rewrite Hq1 in Hv2. specialize (Hv2 eq_refl).
  destruct (idle_call s2 (call_readFile name (Some (UserFunction n cs)) g)
              Hg2 Hv2)
    as (s3 & E3 & Hg3 & Hp3 & _ & Hd3 & Hc3 & _).
  destruct (read_round s3 name (Some (UserFunction n cs)) g content Hg3 Hp3)
    as (s4 & E4 & _ & _ & _ & Hc4 & _); [by rewrite Hd3|].
  exists s4. split.
  - rewrite (exec_cons _ _ _ _ E1), exec_app, E2.
    by rewrite (exec_cons _ _ _ _ E3).
  - rewrite Hc4, Hc3, Hc2, Hc1. cbn [entries]. by rewrite app_nil_r.
Qed.

Lemma X7_write_then_read_witness :
  reachable idle ∧ tasksProcessSubject idle = true ∧
  ∃ s', exec idle
          (caller (call_writeFile "a.txt" "hello" None None) ::
           three_answers ++
           caller (call_readFile "a.txt" (Some (UserFunction 1 [])) None) ::
           three_answers) = Done s' ∧
        called (log s') = called (log idle) ++ [(1, arg_result "hello")].
Proof.
  assert (reachable idle) as Hr
    by run_from_fresh [requestFileSystem_result true].
  split_and!; [exact Hr|reflexivity|].
  apply (X7_write_then_read idle "a.txt" "hello" 1 [] None Hr).
  reflexivity.
Defined.

(** X8 (write, append, read).  On a ready FileHandler, a write of [a],
    an append of [b] and a read of the same file, each answered with
    success, call the read's success function exactly once, with [a]
    followed by [b], whatever the file held before. *)
Theorem X8_write_append_read s name a b n cs g :
  reachable s → tasksProcessSubject s = true →
  ∃ s', exec s
          (caller (call_writeFile name a None None) :: three_answers ++
           caller (call_appendToFile name b None None) :: three_answers ++
           caller (call_readFile name (Some (UserFunction n cs)) g) ::
           three_answers) = Done s' ∧
        called (log s') = called (log s) ++ [(n, arg_result (a +:+ b))].
Proof.
  intros Hr Hv. pose proof (reachable_Good s Hr) as Hg.
  destruct (idle_call s (call_writeFile name a None None) Hg Hv)
    as (s1 & E1 & Hg1 & Hp1 & Hq1 & _ & Hc1 & _).
  destruct (create_round s1 name a None None false Hg1 Hp1)
    as (s2 & E2 & Hg2 & _ & Hc2 & Hv2 & Hd2 & _).
  rewrite Hq1 in Hv2. specialize (Hv2 eq_refl).
  destruct (idle_call s2 (call_appendToFile name b None None) Hg2 Hv2)
    as (s3 & E3 & Hg3 & Hp3 & Hq3 & Hd3 & Hc3 & _).
  destruct (create_round s3 name b None None true Hg3 Hp3)
    as (s4 & E4 & Hg4 & _ & Hc4 & Hv4 & Hd4 & _).
  rewrite Hq3 in Hv4. specialize (Hv4 eq_refl).
  rewrite Hd3, Hd2 in Hd4. cbn [default] in Hd4.
  destruct (idle_call s4 (call_readFile name (Some (UserFunction n cs)) g)
              Hg4 Hv4)
    as (s5 & E5 & Hg5 & Hp5 & _ & Hd5 & Hc5 & _).
  destruct (read_round s5 name (Some (UserFunction n cs)) g (a +:+ b)
              Hg5 Hp5)
    as (s6 & E6 & _ & _ & _ & Hc6 & _); [by rewrite Hd5|].
  exists s6. split.
  - rewrite (exec_cons _ _ _ _ E1), exec_app, E2.
    rewrite (exec_cons _ _ _ _ E3), exec_app, E4.
    by rewrite (exec_cons _ _ _ _ E5).
  - rewrite Hc6, Hc5, Hc4, Hc3, Hc2, Hc1. cbn [entries].
    by rewrite !app_nil_r.
Qed.

Lemma X8_write_append_read_witness :
  reachable idle ∧ tasksProcessSubject idle = true ∧
  ∃ s', exec idle
          (caller (call_writeFile "d.txt" "A" None None) :: three_answers ++
           caller (call_appendToFile "d.txt" "B" None None) ::
           three_answers ++
           caller (call_readFile "d.txt" (Some (UserFunction 1 [])) None) ::
           three_answers) = Done s' ∧
        called (log s') = called (log idle) ++ [(1, arg_result "AB")].
Proof.
  assert (reachable idle) as Hr
    by run_from_fresh [requestFileSystem_result true].
  split_and!; [exact Hr|reflexivity|].
  apply (X8_write_append_read idle "d.txt" "A" "B" 1 [] None Hr).
  reflexivity.
Defined.

(** X9 (ready means idle).  Between two handlers, whenever the subject
    holds true the queue is empty, no request is outstanding, the file
    system has been stored and its request is answered: work never waits
    while the FileHandler is ready. *)
Theorem X9_ready_is_idle s :
  reachable s → tasksProcessSubject s = true →
  tasksQueue s = [] ∧ pending s = [] ∧ fs s = Some domFileSystem ∧
  requesting s = false.
Proof.
  intros Hr Hv. destruct (reachable_Good s Hr) as [(m & Hm & Hs & Hreq) _ _].
  destruct m; cbn [shape] in Hs;
    [destruct Hs; congruence| |done|destruct Hs; congruence].
  destruct Hs as (_ & Hp & Hq & [[] Hfs]). split_and!; try done.
  destruct (requesting s); [|done]. by specialize (Hreq eq_refl).
Qed.

Lemma X9_ready_is_idle_witness :
  reachable idle ∧ tasksProcessSubject idle = true ∧
  tasksQueue idle = [] ∧ pending idle = [].
Proof.
  assert (reachable idle) as Hr
    by run_from_fresh [requestFileSystem_result true].
  split_and!; [exact Hr|reflexivity|..];
    apply (X9_ready_is_idle idle Hr); reflexivity.
Defined.

(** X10 (fileEntry.file fails).  [fileEntry.file] is always called with
    a success callback only (line 48).  When the browser reports that it
    failed, no function of the caller is called and the subject is not
    written; from then on no event begins a task or calls a function of
    the caller, and the subject stays false. *)
Theorem X10_file_failure s name succ err :
  reachable s → pending s = [file_call name succ err] →
  err = None ∧
  step s (backend 0 false) = Done (set_pending [] s) ∧
  ∀ es s', exec (set_pending [] s) es = Done s' →
    started (log s') = started (log s) ∧ called (log s') = called (log s) ∧
    tasksProcessSubject s' = false.
Proof.
  intros Hr Hp. pose proof (reachable_Good s Hr) as Hg.
  destruct (Good_taken_head s _ Hg Hp) as [Ht Hwf].
  assert (err = None) as ->.
  { inversion Hwf as [t Ht0| | | | | |]; [by destruct t|done]. }
  split_and!; [done| |].
  - by rewrite (step_file_error _ _ _ _ Hp).
  - intros es s' E. destruct (Taken_env _ Ht) as [_ Hreq].
    destruct (stalled_forever es _ s' (quiet_subject _ (taken_quiet _ Ht))
                (quiet_pending _ (taken_quiet _ Ht)) Hreq E)
      as (Hv & _ & Hst & Hc).
    by split_and!.
Qed.

Lemma X10_file_failure_witness :
  reachable (state_after scenario_file_wanted) ∧
  step (state_after scenario_file_wanted) (backend 0 false) =
    Done (set_pending [] (state_after scenario_file_wanted)).
Proof.
  assert (reachable (state_after scenario_file_wanted)) as Hr
    by run_from_fresh scenario_file_wanted.
  split; [exact Hr|].
  apply (X10_file_failure (state_after scenario_file_wanted) "a.txt"
           (readFile_file (Some (UserFunction 1 []))) None Hr).
  vm_compute; reflexivity.
Defined.

(** X11 (the queue drains).  From any state in which a task has just
    begun there is a run made of answers of the browser alone, with no
    further call of the application, after which every task that was
    waiting has begun, in the order of the queue. *)
Theorem X11_queue_drains s t :
  reachable s → pending s = [first_request t] →
  ∃ es s', Forall is_answer es ∧ exec s es = Done s' ∧
           started (log s') = started (log s) ++ tasksQueue s.
Proof.
  intros Hr Hp. pose proof (reachable_Good s Hr) as Hg.
  destruct (rounds (tasksQueue s) s t [] Hg Hp) as (es & s' & Hes & E & _ & Hst);
    [by rewrite app_nil_r|].
  by exists es, s'.
Qed.

Lemma X11_queue_drains_witness :
  reachable (state_after scenario_A) ∧
  ∃ es s', Forall is_answer es ∧
           exec (state_after scenario_A) es = Done s' ∧
           started (log s') =
             started (log (state_after scenario_A)) ++
             tasksQueue (state_after scenario_A).
Proof.
  assert (reachable (state_after scenario_A)) as Hr
    by run_from_fresh scenario_A.
  split; [exact Hr|].
  apply (X11_queue_drains (state_after scenario_A)
           (writeFile_task "a.txt" "hello" None None) Hr).
  vm_compute; reflexivity.
Defined.

(** * The claims on errors, on order and on early submissions *)

(** ** What one handler run does to the queue *)

Lemma lift_with (P : State → Prop) r :
  (∃ s', r = Some s' ∧ P s') → ∃ s', lift r = Done s' ∧ P s'.
Proof. intros (s' & -> & H). by exists s'. Qed.

Lemma complete_effect i ok s :
  Good s →
  complete i ok s = NotEnabled ∨
  ∃ s', complete i ok s = Done s' ∧ effect s s'.
Proof.
  intros Hg. unfold complete.
  destruct (pending s !! i) as [p|] eqn:Hi; [|by left].
  destruct (Good_taken s i p Hg Hi) as [Ht Hwf].
  set (s0 := set_pending (delete i (pending s)) s) in *.
  assert (tasksQueue s0 = tasksQueue s) as Eq by done.
  assert (log s0 = log s) as El by done.
  clearbody s0. cbv zeta.
  assert (∀ cb a (d : gmap string string),
    ∃ s', (invoke cb a (set_disk d s0) ≫= next true) = Some s' ∧ effect s s')
    as Hcall.
  { intros cb a d.
    destruct (call_then_signal_settled cb a _ (Taken_set_disk d _ Ht))
      as (s' & E & _ & Hs).
    exists s'. split; [done|]. right. exists (submits cb).
    revert Hs. fields. by rewrite Eq, El. }
  assert (∀ (p' : Pending) (d : gmap string string),
    effect s (issue p' (set_disk d s0))) as Hissue.
  { intros p' d. left. fields. by rewrite El. }
  assert (∀ d, set_disk d s0 = set_disk d (set_disk d s0)) as Hdd by done.
  inversion Hwf as [t| | | | | |]; subst p; clear Hwf.
  - destruct t; cbn [first_request]; destruct ok;
      repeat case_match; try (by left); right;
      cbn [deliver apply processError]; apply lift_with;
      try (destruct (Hcall onErrorCallback arg_error (disk s0))
             as (s' & E & He); exists s'; split; [|exact He];
           rewrite <-E; by destruct s0);
      (eexists; split; [reflexivity|]);
      first [ apply (Hissue _ (disk s0)) | apply Hissue ].
  - destruct ok; repeat case_match; try (by left); right; cbn [deliver apply].
    + apply lift_with. eexists; split; [reflexivity|].
      apply (Hissue _ (disk s0)).
    + exists s0. split; [done|]. left. by rewrite El.
  - right. destruct ok; cbn [deliver apply onloadend]; apply lift_with;
      (match goal with |- context [invoke f ?a] =>
         destruct (signal_then_call_settled f a s0 Ht) as (s' & E & _ & Hs)
       end;
       exists s'; split; [exact E|]; right; exists (submits f);
       revert Hs; by rewrite Eq, El).
  - destruct ok; repeat case_match; try (by left); right;
      cbn [deliver apply processError]; apply lift_with.
    + eexists; split; [reflexivity|]. unfold install_and_write.
      apply (Hissue _ (disk s0)).
    + destruct (Hcall g arg_error (disk s0)) as (s' & E & He).
      exists s'. split; [|exact He]. rewrite <-E. by destruct s0.
  - destruct ok; repeat case_match; try (by left); right;
      cbn [deliver apply processError]; apply lift_with.
    + eexists; split; [reflexivity|]. unfold install_and_write.
      apply (Hissue _ (disk s0)).
    + destruct (Hcall g arg_error (disk s0)) as (s' & E & He).
      exists s'. split; [|exact He]. rewrite <-E. by destruct s0.
  - destruct ok; cbn [onwriteend onerror writer_name];
      [repeat case_match; try (by left)|]; right.
    + cbn [deliver apply]. apply lift_with. fields. apply Hcall.
    + rewrite (deliver_onerror g s0 Ht). cbn [then_deliver deliver apply].
      apply lift_with.
      pose proof (Taken_invoked g arg_error _ Ht) as Ht1.
      match goal with |- context [invoke f arg_none ?s3] =>
        destruct (call_then_signal_settled f arg_none s3) as (s' & E & _ & Hs);
          [by apply Taken_set_disk|]
      end.
      exists s'. split; [exact E|]. right. exists (submits g ++ submits f).
      revert Hs. fields.
      by rewrite invoked_queue, invoked_started, Eq, El, <-app_assoc.
  - destruct ok; cbn [onwriteend onerror writer_name];
      [repeat case_match; try (by left)|]; right.
    + cbn [deliver apply]. apply lift_with. apply Hcall.
    + rewrite (deliver_onerror g s0 Ht). cbn [then_deliver deliver apply].
      apply lift_with.
      pose proof (Taken_invoked g arg_error _ Ht) as Ht1.
      destruct (call_then_signal_settled f arg_none _ Ht1) as (s' & E & _ & Hs).
      exists s'. split; [exact E|]. right. exists (submits g ++ submits f).
      revert Hs.
      by rewrite invoked_queue, invoked_started, Eq, El, <-app_assoc.
Qed.

Lemma step_effect s e s' : Good s → step s e = Done s' → effect s s'.
Proof.
  intros Hg. destruct e as [c|ok|i ok]; cbn [step].
  - rewrite perform_eq. destruct (tasksProcessSubject s) eqn:Hv.
    + destruct (idle_call s c Hg Hv) as (s1 & E & _ & Hp & Hq & _ & _ & Hst).
      cbn [step] in E. rewrite perform_eq in E. rewrite E. intros [= <-].
      right. exists [task_of c].
      pose proof Hg as [(m & Hm & Hs & _) _ _].
      destruct m; cbn [shape] in Hs;
        [destruct Hs; congruence| |done|destruct Hs; congruence].
      destruct Hs as (_ & _ & Hq0 & _). rewrite Hq0. cbn [app settled].
      done.
    + rewrite addTaskToQueue_busy by done. intros [= <-]. left. fields.
      rewrite writes_snoc, started_snoc. by rewrite !app_nil_r.
  - destruct (requesting s) eqn:Hreq; [|done]. destruct ok.
    + pose proof (Good_booted s Hg Hreq) as Hq.
      destruct (next_true_settled _ Hq) as (s1 & E & _ & Hs);
        [by eexists|done|].
      unfold initFs. rewrite E. intros [= <-]. right. exists [].
      by rewrite app_nil_r.
    + intros [= <-]. by left.
  - intros E. destruct (complete_effect i ok s Hg) as [E'|(s1 & E' & He)];
      rewrite E in E'; [done|]. by injection E' as <-.
Qed.



(** C2 (FIFO).  Every call of a public method appends its task to the
    push log.  In every reachable state the tasks pushed so far are, in
    that order, the tasks whose body has begun followed by the tasks still
    in the queue, and when the subject holds true every task pushed has
    begun.  A call on a ready FileHandler begins its task at once.  While
    tasks wait, a handler run either leaves the subject alone and begins
    nothing, or begins exactly the head of the queue and takes it off the
    queue.  So bodies begin in submission order, whether the tasks were
    submitted before or after the file system was granted. *)
Theorem C2_fifo_order s :
  reachable s →
  (∀ c s', step s (caller c) = Done s' →
           pushed (log s') = pushed (log s) ++ [task_of c]) ∧
  pushed (log s) = started (log s) ++ tasksQueue s ∧
  (tasksProcessSubject s = true → started (log s) = pushed (log s)) ∧
  (∀ c, tasksProcessSubject s = true →
        ∃ s', step s (caller c) = Done s' ∧
              started (log s') = started (log s) ++ [task_of c] ∧
              tasksQueue s' = []) ∧
  (∀ e s' t q, step s e = Done s' → tasksQueue s = t :: q →
     (writes (log s') = writes (log s) ∧
      started (log s') = started (log s)) ∨
     (started (log s') = started (log s) ++ [t] ∧
      ∃ ex, tasksQueue s' = q ++ ex)).
Proof.
  intros Hr. pose proof (reachable_Good s Hr) as Hg. split_and!.
  - intros c s'. cbn [step]. rewrite perform_eq.
    destruct (addTaskToQueue (task_of c) s) as [s1|] eqn:E; [|done].
    intros [= <-]. by apply addTaskToQueue_pushed.
  - apply Hg.
  - intros Hv. destruct Hg as [(m & Hm & Hs & _) Hf _].
    destruct m; cbn [shape] in Hs;
      [destruct Hs; congruence| |done|destruct Hs; congruence].
    destruct Hs as (_ & _ & Hq & _). by rewrite Hf, Hq, app_nil_r.
  - intros c Hv.
    destruct (idle_call s c Hg Hv) as (s1 & E & _ & _ & Hq & _ & _ & Hst).
    by exists s1.
  - intros e s' t q E Hq.
    destruct (step_effect s e s' Hg E) as [?|[ex Hs]]; [by left|].
    right. rewrite Hq in Hs. cbn [app settled] in Hs.
    destruct Hs as (_ & Hq' & Hst). split; [done|]. by exists ex.
Qed.

Lemma C2_fifo_order_witness :
  reachable (state_after scenario_A) ∧
  pushed (log (state_after scenario_A)) =
  started (log (state_after scenario_A)) ++ tasksQueue (state_after scenario_A).
Proof.
  assert (reachable (state_after scenario_A)) as Hr.
  { apply (exec_reachable (initial ∅) scenario_A);
      [apply reachable_initial|vm_compute; reflexivity]. }
  split; [exact Hr|]. apply (C2_fifo_order _ Hr).
Defined.

(** C5, the failing run.  Three calls are made before the file system is
    granted: a write of a.txt, a read of a.txt, a write of b.txt.  They
    stay in the queue, in order, and nothing begins.  After [initFs] the
    first write runs to its end and the read begins; [getFile] gives it the
    file entry and [fileEntry.file], which line 48 calls with a success
    callback only, fails.  No function of the caller is called, the subject
    stays false, and the third task is still in the queue: no later event
    begins it. *)
Theorem C5_file_failure_strands :
  exec (initial ∅) scenario_stranded = Done (state_after scenario_stranded) ∧
  tasksQueue (state_after (take 3 scenario_stranded)) =
    [writeFile_task "a.txt" "x" None None;
     readFile_task "a.txt" (Some (UserFunction 1 [])) (Some (UserFunction 2 []));
     writeFile_task "b.txt" "y"
       (Some (UserFunction 3 [])) (Some (UserFunction 4 []))] ∧
  started (log (state_after (take 3 scenario_stranded))) = [] ∧
  fs (state_after (take 4 scenario_stranded)) = Some domFileSystem ∧
  started (log (state_after scenario_stranded)) =
    [writeFile_task "a.txt" "x" None None;
     readFile_task "a.txt" (Some (UserFunction 1 [])) (Some (UserFunction 2 []))] ∧
  tasksQueue (state_after scenario_stranded) =
    [writeFile_task "b.txt" "y"
       (Some (UserFunction 3 [])) (Some (UserFunction 4 []))] ∧
  called (log (state_after scenario_stranded)) = [] ∧
  tasksProcessSubject (state_after scenario_stranded) = false ∧
  pending (state_after scenario_stranded) = [] ∧
  (∀ es s', exec (state_after scenario_stranded) es = Done s' →
     tasksProcessSubject s' = false ∧
     started (log s') = started (log (state_after scenario_stranded)) ∧
     called (log s') = []).
Proof.
  split_and!; try (vm_compute; reflexivity).
  intros es s' E.
  destruct (stalled_forever es (state_after scenario_stranded) s')
    as (Hv & _ & Hst & Hc); try (vm_compute; reflexivity); [exact E|].
  split_and!; [exact Hv|exact Hst|]. rewrite Hc. vm_compute; reflexivity.
Qed.
